(** * Aura release tooling: a shallow embedding and its verified properties

    The development follows three scripts of the repository:
    - [tools/release/release.py]: the SDK zip packager
      ([zip_write_deterministic], the packaging loop of [main],
      [repack_zip_deterministic], [maybe_sign_windows]);
    - [build_release.py]: the [AuraBuilder] pipeline ([run_command],
      [ensure_jdk], [generate_manifest], [run_selected_steps]);
    - [setup_gradle_and_build_apk.py]: [GradleSetup.setup_and_build].

    Python [str] values are modelled as [string] (compared lexicographically
    by character code, as Python compares [str]), file contents as
    [list byte], dictionaries as [gmap] or, where insertion order is
    observable, as association lists. *)

From Stdlib Require Import ZArith Qcanon.
From Stdlib.Strings Require Import Ascii Byte.
From stdpp Require Import gmap strings list sorting pretty.

Open Scope string_scope.
Open Scope list_scope.
Open Scope Z_scope.
Open Scope stdpp_scope.

(** ** Python's [list.sort(key=...)]

    Python's sort is stable.  The result of a stable sort is determined by
    the input, so it is modelled by a stable insertion sort: an element is
    placed before the first element of the (already sorted) tail whose key is
    not smaller. *)

Section PySort.
Context {A : Type} (key : A → string).

Fixpoint insert_by_key (x : A) (l : list A) : list A :=
  match l with
  | [] => [x]
  | y :: l' =>
      if String.leb (key x) (key y) then x :: y :: l'
      else y :: insert_by_key x l'
  end.

Fixpoint sort_by_key (l : list A) : list A :=
  match l with
  | [] => []
  | x :: l' => insert_by_key x (sort_by_key l')
  end.

(** Order induced on elements by their keys. *)
Definition key_le (x y : A) : Prop := String.le (key x) (key y).
End PySort.

(** ** Zip archives as [zipfile] presents them *)

Module Zip.

(** The fields of [zipfile.ZipInfo] that the scripts set or read. *)
Record ZipInfo := mkZipInfo {
  filename : string;
  date_time : Z * Z * Z * Z * Z * Z;
  external_attr : Z;
}.

(** An archive member: its header and its uncompressed data. *)
Record member := mkMember {
  info : ZipInfo;
  data : list byte;
}.

(** [ZipFile.infolist()] order; duplicate names are possible. *)
Definition archive := list member.

Definition fixed_date_time : Z * Z * Z * Z * Z * Z := (1980, 1, 1, 0, 0, 0).

(** [ZipInfo.is_dir]: the name ends with a slash. *)
Fixpoint ends_with_slash (s : string) : bool :=
  match s with
  | EmptyString => false
  | String c EmptyString => Ascii.eqb c "/"%char
  | String _ s' => ends_with_slash s'
  end.

Definition is_dir (i : ZipInfo) : bool := ends_with_slash (filename i).

(** [ZipFile.read(name)]: [getinfo] looks the name up in [NameToInfo],
    which holds the last member written under that name. *)
Fixpoint read (z : archive) (name : string) : option (list byte) :=
  match z with
  | [] => None
  | m :: z' =>
      match read z' name with
      | Some d => Some d
      | None => if String.eqb (filename (info m)) name then Some (data m) else None
      end
  end.

(** The octal constant [0o600] of [zipfile]. *)
Definition o600 : Z := 6 * 64.

(** The header [ZipFile.writestr(zinfo, data)] stores for a [ZipInfo] it is
    given: [_open_to_write] gives a header without external attributes the
    permissions [0o600 << 16] ([if not zinfo.external_attr:
    zinfo.external_attr = 0o600 << 16]). *)
Definition written_info (i : ZipInfo) : ZipInfo :=
  {| filename := filename i;
     date_time := date_time i;
     external_attr :=
       if external_attr i =? 0 then Z.shiftl o600 16 else external_attr i |}.

(** [ZipFile.writestr(zinfo, data)] appends a member. *)
Definition writestr (z : archive) (i : ZipInfo) (d : list byte) : archive :=
  z ++ [mkMember (written_info i) d].

Definition names (z : archive) : list string := (λ m, filename (info m)) <$> z.

End Zip.

(** ** [tools/release/release.py] *)

Module Release.
Import Zip.

(** One path yielded by [SDK_STAGING.rglob("*")], with what the packager
    observes of it. [rel_posix] is [p.relative_to(DIST_DIR).as_posix()];
    [st_mode] is [None] when [stat()] raises. *)
Record staged := mkStaged {
  rel_posix : string;
  is_file : bool;
  contents : list byte;
  st_mode : option Z;
  st_mtime : Z;
}.

(** The octal constants of the source: [0o111], [0o755], [0o644]. *)
Definition o111 : Z := 1 * 64 + 1 * 8 + 1.
Definition o755 : Z := 7 * 64 + 5 * 8 + 5.
Definition o644 : Z := 6 * 64 + 4 * 8 + 4.

(** [zip_write_deterministic(z, src, arcname)] *)
Definition is_exe (src : staged) : bool :=
  match st_mode src with
  | Some mode => negb (Z.land mode o111 =? 0)
  | None => false
  end.

Definition perm (src : staged) : Z := if is_exe src then o755 else o644.

Definition deterministic_info (src : staged) (arcname : string) : ZipInfo :=
  {| filename := arcname;
     date_time := fixed_date_time;
     external_attr := Z.shiftl (Z.land (perm src) 0xFFFF) 16 |}.

Definition zip_write_deterministic (z : archive) (src : staged) (arcname : string)
    : archive :=
  writestr z (deterministic_info src arcname) (contents src).

(** What the packager reads of a staged file: its relative path, its bytes
    and its mode; the modification time is not among them. *)
Definition observed (p : staged) : string * list byte * option Z :=
  (rel_posix p, contents p, st_mode p).

(** The packaging loop of [main]:
    [files = [p for p in SDK_STAGING.rglob("*") if p.is_file()]], sorted by
    the relative posix path, each written in turn.  The wall clock of the
    build machine is an argument to make explicit that nothing reads it. *)
Definition package_files (rglob : list staged) : list staged :=
  sort_by_key rel_posix (filter (λ p, is_file p = true) rglob).

Definition package (clock : Z) (rglob : list staged) : archive :=
  foldl (λ z p, zip_write_deterministic z p (rel_posix p)) [] (package_files rglob).

(** [repack_zip_deterministic]: the members written to the temporary
    archive, which then replaces the destination.  [zin.read] cannot miss
    for a name taken from [zin.infolist()]; the empty default is never
    used (see [read_member_name]). *)

(** [out_i], the header the loop builds for a member [i]. *)
Definition out_info (i : ZipInfo) : ZipInfo :=
  {| filename := filename i;
     date_time := fixed_date_time;
     external_attr := external_attr i |}.

(** The header [zout.writestr(out_i, data)] stores: that of [out_i], with
    the permissions [0o600 << 16] where [i] has no external attributes. *)
Definition repacked_info (i : ZipInfo) : ZipInfo := written_info (out_info i).

Definition repack_member (zin : archive) (i : ZipInfo) : option member :=
  if is_dir i then None
  else
    let d := default [] (read zin (filename i)) in
    Some {| info := repacked_info i; data := d |}.

Definition repack_zip_deterministic (zin : archive) : archive :=
  let infos := sort_by_key filename (info <$> zin) in
  foldl (λ zout i, match repack_member zin i with
                   | Some m => zout ++ [m]
                   | None => zout
                   end) [] infos.

(** The headers the loop does not skip: the sorted ones that are not
    directories. *)
Definition kept_infos (zin : archive) : list ZipInfo :=
  filter (λ i, is_dir i = false) (sort_by_key filename (info <$> zin)).

(** *** Signing *)




End Release.

(** ** [build_release.py]: [AuraBuilder] *)

Module Builder.

(** *** [run_command]: the child environment

    Dictionaries are heap objects: [os.environ.copy()] allocates a new
    dictionary and [merged_env.update(...)] mutates that new object in
    place.  The store maps references to dictionaries. *)

Record store := mkStore {
  objs : gmap nat (gmap string string);
  next_ref : nat;
}.

Definition dict_copy (h : store) (r : nat) : store * nat :=
  ({| objs := <[next_ref h := default ∅ (objs h !! r)]> (objs h);
      next_ref := S (next_ref h) |},
   next_ref h).

(** [d.update(other)]: every key of [other] is (re)bound in [d]. *)
Definition dict_update (h : store) (r : nat) (other : gmap string string) : store :=
  {| objs := alter (λ d, other ∪ d) r (objs h); next_ref := next_ref h |}.

(** Values a caller may put in the [env] argument. [PyObj] stands for any
    other object, carried with the text [str(v)] gives for it. *)
Inductive pyval :=
| PyNone
| PyStr (s : string)
| PyObj (text : string).

Definition py_str (v : pyval) : string :=
  match v with
  | PyNone => "None"
  | PyStr s => s
  | PyObj t => t
  end.

(** [{k: str(v) for k, v in env.items() if v is not None}] *)
Definition stringify_overrides (env : gmap string pyval) : gmap string string :=
  omap (λ v, match v with PyNone => None | _ => Some (py_str v) end) env.

(** The environment part of [run_command]: returns the store after the
    call and the reference of [merged_env], the dictionary handed to
    [subprocess.run(..., env=merged_env)]. [environ] is the reference of
    [os.environ]. *)
Definition run_command_env (h : store) (environ : nat)
    (env : option (gmap string pyval)) : store * nat :=
  let '(h1, merged_env) := dict_copy h environ in
  match env with
  | Some e =>
      if bool_decide (e = ∅) then (h1, merged_env)
      else (dict_update h1 merged_env (stringify_overrides e), merged_env)
  | None => (h1, merged_env)
  end.

Definition deref (h : store) (r : nat) : gmap string string :=
  default ∅ (objs h !! r).

End Builder.

(** ** [AuraBuilder.ensure_jdk] *)

Module Toolchain.

(** What [_extract_zip] leaves in the temporary directory: [None] when
    [ZipFile]/[extractall] raises, otherwise the top-level directories in
    [iterdir()] order, each with whether it holds [bin/java.exe]. *)
Definition zip_payload := option (list (string * bool)).

(** What fetching a URL does: it stores an archive, or raises, possibly
    after [open(dest, "wb")] has created a truncated file. *)
Inductive download_result :=
| Fetched (z : zip_payload)
| FetchFailed (err : string) (left_partial : bool).

(** The part of the machine [ensure_jdk] looks at.  [java_home_has_java h]
    is [(Path(h) / "bin" / java).exists()] for a [JAVA_HOME] value [h]
    (taken to lie outside [.tools/]). *)
Record world := mkWorld {
  os_nt : bool;
  environ : gmap string string;
  java_home_has_java : string → bool;
  search_path : gmap string string;
  jdk_zip : option zip_payload;
  jdk_root : option bool;
  tmp_extract : bool;
  net : string → download_result;
  unlink_ok : bool;
  winget : bool * gmap string string;
}.

(** [pathlib] paths as the script builds them: [self.repo_root], [Path(s)]
    for a string [s], and [p / name].  Paths built in the same way are the
    same path.  Nothing is assumed about the text [str(p)] of a path: [Path]
    normalises its argument (it drops a trailing slash, for one). *)
Inductive path :=
| RepoRoot
| Path (s : string)
| Div (p : path) (name : string).

(** Observable actions of [ensure_jdk], in program order. *)
Inductive event :=
| EnvGet (var : string)
| PathExists (p : path)
| Which (exe : string)
| Download (url : string)
| Unlink (p : path)
| Rmtree (p : path)
| ExtractZip (p : path)
| Iterdir (p : path)
| Move (src dst : path)
| RunCommand (cmd : string).


(** The builder's [java_home] attribute together with the machine and the
    actions performed so far. *)
Record st := mkSt {
  w : world;
  java_home : option path;
  trace : list event;
}.

Definition emit (e : event) (s : st) : st :=
  {| w := w s; java_home := java_home s; trace := trace s ++ [e] |}.
Definition set_world (w' : world) (s : st) : st :=
  {| w := w'; java_home := java_home s; trace := trace s |}.

Definition with_jdk_zip (z : option zip_payload) (x : world) : world :=
  {| os_nt := os_nt x; environ := environ x;
     java_home_has_java := java_home_has_java x; search_path := search_path x;
     jdk_zip := z; jdk_root := jdk_root x; tmp_extract := tmp_extract x;
     net := net x; unlink_ok := unlink_ok x; winget := winget x |}.

(** [self.tools_root], [jdk_zip], [jdk_root] and [tmp]. *)
Definition tools_root : path := Div RepoRoot ".tools".
Definition jdk_zip_path : path := Div (Div tools_root "cache") "temurin-jdk17.zip".

Definition nonempty (o : option string) : option string :=
  match o with
  | Some s => if String.eqb s "" then None else Some s
  | None => None
  end.

(** [url_candidates] after [[u for u in url_candidates if u]]. *)
Definition url_candidates (override : option string) : list string :=
  match nonempty override with Some u => [u] | None => [] end ++
  ["https://api.adoptium.net/v3/binary/latest/17/ga/windows/x64/jdk/hotspot/normal/eclipse";
   "https://aka.ms/download-jdk/microsoft-jdk-17.0.10-windows-x64.zip";
   "https://aka.ms/download-jdk/microsoft-jdk-17.0.9-windows-x64.zip"].

(** The [for url in url_candidates] loop; the result is [last_err]. *)
Fixpoint download_loop (urls : list string) (last_err : option string) (s : st)
    : option string * st :=
  match urls with
  | [] => (last_err, s)
  | url :: urls' =>
      let s := emit (Download url) s in
      match net (w s) url with
      | Fetched z => (None, set_world (with_jdk_zip (Some z) (w s)) s)
      | FetchFailed e partial =>
          let s := if partial then set_world (with_jdk_zip (Some None) (w s)) s
                   else s in
          let s := emit (PathExists jdk_zip_path) s in
          let s :=
            match jdk_zip (w s) with
            | Some _ =>
                let s := emit (Unlink jdk_zip_path) s in
                if unlink_ok (w s) then set_world (with_jdk_zip None (w s)) s else s
            | None => s
            end in
          download_loop urls' (Some e) s
      end
  end.







End Toolchain.

(** ** [AuraBuilder.generate_manifest] *)

Module Manifest.

(** The tree under [dist-release/]: a file with its [st_size], or a
    directory with its entries in the order the filesystem lists them. *)
#[warnings="-register-all"] Inductive node :=
| File (st_size : Z)
| Dir (entries : list (string * node)).

Definition dirnames (entries : list (string * node)) : list string :=
  omap (λ e, match snd e with Dir _ => Some (fst e) | File _ => None end) entries.

(** The file names of a directory, each with the size [stat()] reports
    for it. *)
Definition filenames (entries : list (string * node)) : list (string * Z) :=
  omap (λ e, match snd e with File sz => Some (fst e, sz) | Dir _ => None end) entries.

(** [os.walk(dist_root)], top-down: the triple of a directory, then the
    walks of its subdirectories in order (a file contributes no triple).
    [root] is given by its path components relative to [dist_root]. *)
Fixpoint walk (root : list string) (n : node)
    : list (list string * list string * list (string * Z)) :=
  match n with
  | File _ => []
  | Dir entries =>
      (root, dirnames entries, filenames entries) ::
      (fix walk_entries (es : list (string * node)) :=
         match es with
         | [] => []
         | (name, sub) :: es' => walk (root ++ [name]) sub ++ walk_entries es'
         end) entries
  end.

(** One element of a [components] list; [size_mb], a rounded float, is
    left out. *)
Record file_entry := mkEntry {
  file : string;
  size_bytes : Z;
}.

(** [manifest["components"]]: a dictionary in insertion order. *)
Definition components := list (string * list file_entry).

(** [if category not in c: c[category] = []] then
    [c[category].append(entry)]. *)
Fixpoint components_append (c : components) (category : string) (e : file_entry)
    : components :=
  match c with
  | [] => [(category, [e])]
  | (k, es) :: c' =>
      if String.eqb k category then (k, es ++ [e]) :: c'
      else (k, es) :: components_append c' category e
  end.

(** [str(rel_path)]: the components joined by the separator of the
    platform, [sep]; a path without components reads ".". *)
Fixpoint str_path (sep : string) (parts : list string) : string :=
  match parts with
  | [] => "."
  | [p] => p
  | p :: ps => p +:+ sep +:+ str_path sep ps
  end.

(** [s.replace("\\", "/")]: every backslash becomes a slash. *)
Fixpoint replace_backslash (s : string) : string :=
  match s with
  | EmptyString => EmptyString
  | String c s' =>
      String (if Ascii.eqb c (ascii_of_nat 92) then "/"%char else c)
             (replace_backslash s')
  end.

(** [str(rel_path).replace("\\", "/")], with the separator "/" of a POSIX
    host; the separator of Windows gives the same text (see
    [join_posix_windows]). *)
Definition join_posix (parts : list string) : string :=
  replace_backslash (str_path "/" parts).

(** [rel_path.parts[0] if rel_path.parts else "root"] *)
Definition category_of (parts : list string) : string :=
  match parts with
  | p :: _ => p
  | [] => "root"
  end.

(** The body of the inner loop for one [file] of one [root]. *)
Definition record_file (root : list string) (c : components) (f : string * Z)
    : components :=
  let rel_path := root ++ [fst f] in
  components_append c (category_of rel_path)
    {| file := join_posix rel_path; size_bytes := snd f |}.

Definition generate_manifest (dist_root : node) : components :=
  foldl (λ c '(root, _, files), foldl (record_file root) c files) [] (walk [] dist_root).

Definition lookup_category (c : components) (category : string)
    : option (list file_entry) :=
  snd <$> find (λ kv, String.eqb (fst kv) category) c.

(** [e] is listed under [category]. *)
Definition recorded (c : components) (category : string) (e : file_entry) : Prop :=
  ∃ es, lookup_category c category = Some es ∧ e ∈ es.

End Manifest.

(** ** [AuraBuilder.run_selected_steps] *)

Module Pipeline.

(** What calling a step function does: return a truth value or raise. *)
Inductive py_result :=
| RetTrue
| RetFalse
| Raises (e : string).

Section Steps.
(** The rest of the builder and of the machine, left abstract. *)
Context {E : Type}.

Record builder := mkBuilder {
  failed_steps : list (string * string);
  ext : E;
}.

Definition action := builder → py_result * builder.

Context (build_aura_core build_sentinel_ide setup_android_toolchain
         build_android_apk copy_android_apk_to_dist verify_binaries
         create_distribution generate_manifest collect_markdown_docs
         rearrange_roadmap_summary reorg_repo_root : action).

Definition _step_failed (step_name error : string) (b : builder) : builder :=
  {| failed_steps := failed_steps b ++ [(step_name, error)]; ext := ext b |}.

Definition step_map : list (string * (string * action)) :=
  [("core", ("Aura Core", build_aura_core));
   ("sentinel", ("Sentinel IDE", build_sentinel_ide));
   ("android", ("Android Setup", setup_android_toolchain));
   ("apk", ("Android APK", build_android_apk));
   ("apk-package", ("APK Packaging", copy_android_apk_to_dist));
   ("verify", ("Binary Verification", verify_binaries));
   ("dist", ("Distribution Creation", create_distribution));
   ("manifest", ("Manifest Generation", generate_manifest));
   ("docs", ("Docs Aggregate", collect_markdown_docs));
   ("roadmap", ("Roadmap Restructure", rearrange_roadmap_summary));
   ("reorg-root", ("Reorg Root", reorg_repo_root))].

Definition step_lookup (key : string) : option (string * action) :=
  snd <$> find (λ kv, String.eqb (fst kv) key) step_map.

(** The first loop: resolve the keys, recording unknown ones. *)
Fixpoint resolve_steps (selected : list string) (ordered : list (string * action))
    (b : builder) : list (string * action) * builder :=
  match selected with
  | [] => (ordered, b)
  | key :: rest =>
      match step_lookup key with
      | None =>
          resolve_steps rest ordered
            (_step_failed "args" ("Unknown step: " +:+ key) b)
      | Some step => resolve_steps rest (ordered ++ [step]) b
      end
  end.

(** The second loop: run the steps in order, counting failures.  The log
    lines, the printed summary and the saved log file have no bearing on the
    status and are left out. *)
Fixpoint run_ordered (ordered : list (string * action)) (failed_count : nat)
    (b : builder) : nat * builder :=
  match ordered with
  | [] => (failed_count, b)
  | (step_name, step_func) :: rest =>
      match step_func b with
      | (RetTrue, b) => run_ordered rest failed_count b
      | (RetFalse, b) =>
          run_ordered rest (S failed_count)
            (_step_failed step_name "Step returned False" b)
      | (Raises e, b) =>
          run_ordered rest (S failed_count) (_step_failed step_name e b)
      end
  end.

Definition run_selected_steps (selected : list string) (b : builder) : Z * builder :=
  let '(ordered, b) := resolve_steps selected [] b in
  let '(failed_count, b) := run_ordered ordered 0%nat b in
  (if bool_decide (failed_count = 0%nat) then 0 else 1, b).
End Steps.

End Pipeline.

(** ** [GradleSetup.setup_and_build] *)

Module Gradle.
Import Pipeline.

(** Lines the loop writes about a step. *)
Inductive log_line :=
| LogStep (step_name : string)
| LogFailed (step_name : string)
| LogRaised (step_name : string) (e : string).

Definition line_step (l : log_line) : string :=
  match l with
  | LogStep n | LogFailed n | LogRaised n _ => n
  end.

Section Steps.
(** The machine the step functions act on, left abstract. *)
Context {W : Type}.

Definition action := W → py_result * W.

(** State of the loop; [stopped] records that [break] was taken. *)
Record loop := mkLoop {
  failed_steps : nat;
  machine : W;
  log : list log_line;
  stopped : bool;
}.

Definition run_step (step : string * action) (l : loop) : loop :=
  let '(step_name, step_func) := step in
  let log1 := log l ++ [LogStep step_name] in
  match step_func (machine l) with
  | (RetTrue, m) =>
      {| failed_steps := failed_steps l; machine := m; log := log1;
         stopped := false |}
  | (RetFalse, m) =>
      {| failed_steps := S (failed_steps l); machine := m;
         log := log1 ++ [LogFailed step_name];
         stopped := negb (bool_decide (step_name ∉ ["Build APK"])) |}
  | (Raises e, m) =>
      {| failed_steps := S (failed_steps l); machine := m;
         log := log1 ++ [LogRaised step_name e];
         stopped := bool_decide (step_name = "Build APK") |}
  end.

(** [for step_name, step_func in steps: ...] *)
Fixpoint run_steps (steps : list (string * action)) (l : loop) : loop :=
  match steps with
  | [] => l
  | step :: rest =>
      let l := run_step step l in
      if stopped l then l else run_steps rest l
  end.

Context (download_gradle extract_gradle setup_gradle_wrapper verify_wrapper
         build_apk copy_apk_to_dist : action).

Definition steps : list (string * action) :=
  [("Download Gradle", download_gradle);
   ("Extract Gradle", extract_gradle);
   ("Generate Wrapper", setup_gradle_wrapper);
   ("Verify Wrapper", verify_wrapper);
   ("Build APK", build_apk);
   ("Copy to Distribution", copy_apk_to_dist)].

Definition exit_status (l : loop) : Z :=
  if bool_decide (failed_steps l = 0%nat) then 0 else 1.

Definition setup_and_build (m : W) : Z * loop :=
  let l := run_steps steps
             {| failed_steps := 0; machine := m; log := []; stopped := false |} in
  (exit_status l, l).
End Steps.

End Gradle.

(** ** [tools/release/release.py]: the helpers around the archives *)

Module Artifacts.

(** *** [safe_replace_existing] *)

(** What [path.unlink()] does: it removes the file, raises
    [PermissionError], or raises something else. *)
Inductive unlink_result :=
| UnlinkOk
| UnlinkPermissionError
| UnlinkRaises (e : string).

(** How a call ends: the path was absent; the file was removed; it was
    renamed to [path.suffix + ".old{i}"]; the exception of [unlink] went
    through; or [SystemExit] was raised. *)
Inductive replace_outcome :=
| Absent
| Removed
| RenamedAside (i : nat)
| Propagated (e : string)
| ReplaceSystemExit.

(** The [for i in range(1, 1000)] loop over the given indices; [rename_ok i]
    tells whether [path.rename(alt)] succeeds for index [i]. *)
Fixpoint rename_aside (rename_ok : nat → bool) (indices : list nat) : option nat :=
  match indices with
  | [] => None
  | i :: rest => if rename_ok i then Some i else rename_aside rename_ok rest
  end.

Definition safe_replace_existing (path_exists : bool) (unlink : unlink_result)
    (rename_ok : nat → bool) : replace_outcome :=
  if negb path_exists then Absent
  else
    match unlink with
    | UnlinkOk => Removed
    | UnlinkRaises e => Propagated e
    | UnlinkPermissionError =>
        match rename_aside rename_ok (seq 1 999) with
        | Some i => RenamedAside i
        | None => ReplaceSystemExit
        end
    end.

(** *** [sha256_file] *)

Section Sha256.
(** The [hashlib] object: its fresh state, [update] and [hexdigest]. *)
Context {H : Type} (h_new : H) (h_update : H → list byte → H)
        (h_hexdigest : H → string).

Definition chunk_size : nat := 1024 * 1024.

(** The [while True] loop: [rest] is what the file holds from the current
    position on, so [f.read(chunk_size)] returns [take chunk_size rest].
    [fuel] bounds the number of iterations; [None] means it ran out. *)
Fixpoint sha256_loop (fuel : nat) (rest : list byte) (h : H) : option H :=
  match fuel with
  | O => None
  | S fuel' =>
      match take chunk_size rest with
      | [] => Some h
      | chunk => sha256_loop fuel' (drop chunk_size rest) (h_update h chunk)
      end
  end.

Definition sha256_file (fuel : nat) (content : list byte) : option string :=
  h_hexdigest <$> sha256_loop fuel content h_new.
End Sha256.

(** *** [newest_file] *)

Section Newest.
(** Paths, with the [st_mtime] that [stat()] reports for each. *)
Context {P : Type} (st_mtime : P → Qc).

(** [max(paths, key=...)] keeps the first of the largest elements: the
    candidate is replaced only by a strictly larger one. *)
Definition newest_file (paths : list P) : option P :=
  match paths with
  | [] => None
  | p :: rest =>
      Some (foldl (λ best q, if decide (st_mtime best < st_mtime q)%Qc then q else best)
              p rest)
  end.
End Newest.

(** *** [sentinel_candidate_release_dirs] *)

Section ReleaseDirs.
(** [pathlib] paths, compared as [pathlib] compares them; [Path(s)],
    [p / name], [p / q] and [p.is_absolute()]. *)
Context {path : Type} `{EqDecision path}.
Context (Path : string → path) (child : path → string → path)
        (join : path → path → path) (is_absolute : path → bool).

(** The deduplication loop; [seen] is the set, [out] the list built so
    far. *)
Fixpoint dedupe (candidates : list path) (seen out : list path) : list path :=
  match candidates with
  | [] => out
  | d :: rest =>
      if decide (d ∈ seen) then dedupe rest seen out
      else dedupe rest (d :: seen) (out ++ [d])
  end.

Definition default_release_dirs (sentinel_app_dir : path) : list path :=
  let src_tauri := child sentinel_app_dir "src-tauri" in
  [child (child src_tauri "target") "release";
   child (child src_tauri "target-lsp-test") "release"].

Definition sentinel_candidate_release_dirs (sentinel_app_dir : path)
    (env : gmap string string) : list path :=
  let src_tauri := child sentinel_app_dir "src-tauri" in
  let candidates := default_release_dirs sentinel_app_dir in
  let candidates :=
    match env !! "CARGO_TARGET_DIR" with
    | Some cargo_target_dir =>
        if String.eqb cargo_target_dir "" then candidates
        else
          let p := Path cargo_target_dir in
          if is_absolute p then child p "release" :: candidates
          else child (join src_tauri p) "release" :: candidates
    | None => candidates
    end in
  dedupe candidates [] [].
End ReleaseDirs.

End Artifacts.

(** ** [build_release.py]: step keys

    A Python [str] is held as the bytes of its UTF-8 encoding.  The comma
    is a single byte that occurs in no longer sequence, so splitting at
    commas is splitting the bytes; [str.strip()] removes the white space of
    [str.isspace], which takes one, two or three bytes. *)

Module StepKeys.

(** U+0009..U+000D, U+001C..U+001F and U+0020. *)
Definition is_space_byte (c : ascii) : bool :=
  let n := N_of_ascii c in
  (((9 <=? n) && (n <=? 13)) || ((28 <=? n) && (n <=? 32)))%N.

(** U+0085 and U+00A0. *)
Definition two_byte_space (c d : ascii) : bool :=
  ((N_of_ascii c =? 0xC2) && ((N_of_ascii d =? 0x85) || (N_of_ascii d =? 0xA0)))%N.

(** U+1680, U+2000..U+200A, U+2028, U+2029, U+202F, U+205F and U+3000. *)
Definition three_byte_space (c d e : ascii) : bool :=
  let '(c, d, e) := (N_of_ascii c, N_of_ascii d, N_of_ascii e) in
  (((c =? 0xE1) && (d =? 0x9A) && (e =? 0x80)) ||
   ((c =? 0xE2) && (d =? 0x80) &&
      (((0x80 <=? e) && (e <=? 0x8A)) || (e =? 0xA8) || (e =? 0xA9) || (e =? 0xAF))) ||
   ((c =? 0xE2) && (d =? 0x81) && (e =? 0x9F)) ||
   ((c =? 0xE3) && (d =? 0x80) && (e =? 0x80)))%N.

(** [s.lstrip()] *)
Fixpoint lstrip (s : string) : string :=
  match s with
  | EmptyString => EmptyString
  | String c s1 =>
      if is_space_byte c then lstrip s1
      else
        match s1 with
        | String d s2 =>
            if two_byte_space c d then lstrip s2
            else
              match s2 with
              | String e s3 => if three_byte_space c d e then lstrip s3 else s
              | EmptyString => s
              end
        | EmptyString => s
        end
  end.

(** [s.rstrip()], on the reversed bytes: the last byte comes first. *)
Fixpoint rstrip_reversed (r : string) : string :=
  match r with
  | EmptyString => EmptyString
  | String e r1 =>
      if is_space_byte e then rstrip_reversed r1
      else
        match r1 with
        | String d r2 =>
            if two_byte_space d e then rstrip_reversed r2
            else
              match r2 with
              | String c r3 => if three_byte_space c d e then rstrip_reversed r3 else r
              | EmptyString => r
              end
        | EmptyString => r
        end
  end.

Definition rstrip (s : string) : string := String.rev (rstrip_reversed (String.rev s)).

(** [s.strip()] *)
Definition strip (s : string) : string := rstrip (lstrip s).

(** [s.split(",")] *)
Fixpoint split_comma (s : string) : list string :=
  match s with
  | EmptyString => [EmptyString]
  | String c s' =>
      if Ascii.eqb c ","%char then EmptyString :: split_comma s'
      else
        match split_comma s' with
        | piece :: pieces => String c piece :: pieces
        | [] => [String c EmptyString]
        end
  end.

(** [",".join(keys)] *)
Fixpoint join_comma (keys : list string) : string :=
  match keys with
  | [] => ""
  | [k] => k
  | k :: rest => k +:+ "," +:+ join_comma rest
  end.

(** [[s.strip() for s in raw.split(",") if s.strip()]], as [main] applies
    it to [--steps] and [_interactive_select] to the typed keys. *)
Definition parse_step_keys (raw : string) : list string :=
  filter (λ k, k ≠ "") (strip <$> split_comma raw).

(** [_interactive_select]: [choice] is the first line typed, [raw] the
    second one, read for the custom selection only. *)
Definition _interactive_select (choice_line raw_line : string) : list string :=
  let choice := strip choice_line in
  if String.eqb choice "1" then
    ["core"; "sentinel"; "android"; "apk"; "apk-package"; "verify"; "dist";
     "manifest"; "docs"]
  else if String.eqb choice "2" then ["core"; "verify"]
  else if String.eqb choice "3" then ["sentinel"]
  else if String.eqb choice "4" then ["android"; "apk"; "apk-package"]
  else if String.eqb choice "5" then ["verify"; "dist"; "manifest"]
  else if String.eqb choice "6" then ["docs"]
  else if String.eqb choice "7" then ["roadmap"]
  else if String.eqb choice "8" then ["reorg-root"; "docs"; "roadmap"]
  else if String.eqb choice "9" then parse_step_keys (strip raw_line)
  else ["core"; "sentinel"; "verify"; "dist"; "manifest"; "docs"].

End StepKeys.

(** ** [AuraBuilder.build_all] and the steps that run commands *)

Module Commands.
Import Pipeline.

(** How [subprocess.run] ends: the process completes, the timeout expires,
    or another exception is raised. *)
Inductive proc_outcome :=
| Completed (returncode : Z) (stdout stderr : string)
| TimeoutExpired
| ProcError (e : string).

(** The machine as the commands see it: how a command line ends, given
    the command lines launched before it, and the command lines launched so
    far. *)
Record machine := mkMachine {
  respond : list string → string → proc_outcome;
  launched : list string;
}.

(** [sep.join(items)] *)
Fixpoint str_join (sep : string) (items : list string) : string :=
  match items with
  | [] => ""
  | [x] => x
  | x :: rest => x +:+ sep +:+ str_join sep rest
  end.

(** [cmd if isinstance(cmd, str) else " ".join(cmd)] *)
Definition display_cmd (cmd : string + list string) : string :=
  match cmd with
  | inl line => line
  | inr argv => str_join " " argv
  end.

(** The message of a failed run; [None] when the process exits with 0. *)
Definition failure_message (timeout_sec : Z) (o : proc_outcome) : option string :=
  match o with
  | Completed returncode stdout stderr =>
      if returncode =? 0 then None
      else Some (if String.eqb stderr "" then stdout else stderr)
  | TimeoutExpired => Some ("Command timed out (" +:+ pretty timeout_sec +:+ " seconds)")
  | ProcError e => Some e
  end.

(** [run_command]; the log lines are left out. *)
Definition run_command (cmd : string + list string) (description : string)
    (timeout_sec : Z) (b : @builder machine) : (bool * string) * @builder machine :=
  let line := display_cmd cmd in
  let o := respond (ext b) (launched (ext b)) line in
  let b := {| failed_steps := failed_steps b;
              ext := {| respond := respond (ext b);
                        launched := launched (ext b) ++ [line] |} |} in
  match failure_message timeout_sec o with
  | Some error_msg =>
      ((false, error_msg),
       _step_failed (if String.eqb description "" then line else description)
         error_msg b)
  | None =>
      ((true, match o with Completed _ stdout _ => stdout | _ => "" end), b)
  end.

Definition as_result (success : bool) : py_result :=
  if success then RetTrue else RetFalse.

Definition build_aura_core : @action machine := λ b,
  let '((success, _), b) :=
    run_command (inr ["cargo"; "build"; "--release"])
      "Compile Aura compiler, LSP, and package manager" 300 b in
  (as_result success, b).

Definition build_sentinel_ide : @action machine := λ b,
  let '((success, _), b) :=
    run_command (inr ["npm"; "install"]) "Install npm packages" 300 b in
  if negb success then (RetFalse, b)
  else
    let '((success, _), b) :=
      run_command (inr ["npm"; "run"; "build"]) "Build Sentinel IDE with Vite" 300 b in
    (as_result success, b).

Section BuildAll.
Context {E : Type}.
Context (build_aura_core build_sentinel_ide setup_android_toolchain
         build_android_apk copy_android_apk_to_dist verify_binaries
         create_distribution generate_manifest : @action E).

End BuildAll.

(** *** [_android_env] *)

Section AndroidEnv.
(** [pathlib] paths: [str(p)] and [p / name]; [pathsep] is [os.pathsep]. *)
Context {path : Type} (path_str : path → string) (child : path → string → path)
        (pathsep : string).

Definition _android_env (java_home android_sdk_root : option path)
    (environ : gmap string string) : gmap string Builder.pyval :=
  let env : gmap string Builder.pyval := ∅ in
  let env :=
    match java_home with
    | Some jh =>
        <["PATH" := Builder.PyStr (path_str (child jh "bin") +:+ pathsep
                                   +:+ default "" (environ !! "PATH"))]>
          (<["JAVA_HOME" := Builder.PyStr (path_str jh)]> env)
    | None => env
    end in
  match android_sdk_root with
  | Some sdk =>
      <["ANDROID_HOME" := Builder.PyStr (path_str sdk)]>
        (<["ANDROID_SDK_ROOT" := Builder.PyStr (path_str sdk)]> env)
  | None => env
  end.
End AndroidEnv.

End Commands.

(** ** The files below a directory *)

Module Tree.
Import Manifest.

(** The files of a tree, each with its path components relative to the
    tree's root and its size. *)
Fixpoint tree_files (root : list string) (n : node) : list (list string * Z) :=
  match n with
  | File _ => []
  | Dir entries =>
      (fix entries_files (es : list (string * node)) :=
         match es with
         | [] => []
         | (name, sub) :: es' =>
             match sub with
             | File sz => [(root ++ [name], sz)]
             | Dir _ => tree_files (root ++ [name]) sub
             end ++ entries_files es'
         end) entries
  end.

(** The files a walk comes across, each with its path relative to the
    walked root. *)
Definition walked_files
    (triples : list (list string * list string * list (string * Z)))
    : list (list string * Z) :=
  triples ≫= λ '(root, _, files), (λ f, (root ++ [f.1], f.2)) <$> files.

(** The number of file entries of a manifest, over all categories. *)
Definition total_entries (c : components) : nat :=
  sum_list (length ∘ snd <$> c).

End Tree.

(** ** What a trace of [ensure_jdk] downloaded, and runs of steps that all
    succeed *)

Module Observe.

(** The URLs fetched, in order. *)
Definition downloads (events : list Toolchain.event) : list string :=
  omap (λ e, match e with Toolchain.Download url => Some url | _ => None end) events.

(** Every step function returns true, each on the machine its predecessor
    left. *)
Fixpoint all_succeed {W : Type} (steps : list (string * @Gradle.action W)) (m : W)
    : Prop :=
  match steps with
  | [] => True
  | (_, step_func) :: rest =>
      (step_func m).1 = Pipeline.RetTrue ∧ all_succeed rest (step_func m).2
  end.

(** Machines to run [ensure_jdk] on: one where only the second fixed URL
    answers, one without network, and one whose cached archive is not a zip
    file. *)
Definition flaky_world : Toolchain.world :=
  {| Toolchain.os_nt := false; Toolchain.environ := ∅; Toolchain.java_home_has_java := λ _, false;
     Toolchain.search_path := ∅; Toolchain.jdk_zip := None; Toolchain.jdk_root := None; Toolchain.tmp_extract := false;
     Toolchain.net := λ u, if String.eqb u "https://aka.ms/download-jdk/microsoft-jdk-17.0.10-windows-x64.zip"
                 then Toolchain.Fetched (Some [("jdk-17.0.10+7", true)])
                 else Toolchain.FetchFailed "HTTP Error 403: Forbidden" true;
     Toolchain.unlink_ok := true; Toolchain.winget := (false, ∅) |}.



End Observe.

(** ** Case-insensitive order, as the specification words it

    The specification asks for entries sorted by path "case-insensitively".
    [casefold] lowers the ASCII letters; [casefold_le] compares the lowered
    paths.  Neither is part of the scripts. *)

Definition casefold_ascii (c : ascii) : ascii :=
  let n := N_of_ascii c in
  if ((65 <=? n) && (n <=? 90))%N then ascii_of_N (n + 32) else c.

Fixpoint casefold (s : string) : string :=
  match s with
  | EmptyString => EmptyString
  | String c s' => String (casefold_ascii c) (casefold s')
  end.

Definition casefold_le (a b : string) : Prop := String.le (casefold a) (casefold b).

(** * Properties *)

(** ** The sort *)

Section SortFacts.
Context {A : Type} (key : A → string).

Local Instance key_le_trans : Transitive (key_le key).
Proof. intros x y z Hxy Hyz. unfold key_le in *. by etrans. Qed.

Lemma leb_false_le (a b : string) : String.leb a b = false → String.le b a.
Proof.
  intros Hab. destruct (total String.le a b) as [H|H]; [|done].
  unfold String.le in H. rewrite Hab in H. done.
Qed.

Lemma insert_by_key_Permutation (x : A) (l : list A) :
  insert_by_key key x l ≡ₚ x :: l.
Proof.
  induction l as [|y l IH]; simpl; [done|].
  destruct (String.leb (key x) (key y)); [done|].
  rewrite IH. apply Permutation_swap.
Qed.

Lemma sort_by_key_Permutation (l : list A) : sort_by_key key l ≡ₚ l.
Proof.
  induction l as [|x l IH]; simpl; [done|].
  by rewrite insert_by_key_Permutation, IH.
Qed.

Lemma insert_by_key_StronglySorted (x : A) (l : list A) :
  StronglySorted (key_le key) l →
  StronglySorted (key_le key) (insert_by_key key x l).
Proof.
  induction 1 as [|y l Hl IH Hy]; simpl.
  { repeat constructor. }
  destruct (String.leb (key x) (key y)) eqn:Hxy.
  - assert (key_le key x y) as Hle by (unfold key_le, String.le; by rewrite Hxy).
    constructor; [by constructor|].
    constructor; [done|].
    eapply Forall_impl; [exact Hy|]. intros z Hz. by etrans.
  - constructor; [done|].
    rewrite insert_by_key_Permutation. constructor; [|done].
    by apply leb_false_le.
Qed.

Lemma sort_by_key_StronglySorted (l : list A) :
  StronglySorted (key_le key) (sort_by_key key l).
Proof.
  induction l as [|x l IH]; simpl; [constructor|].
  by apply insert_by_key_StronglySorted.
Qed.

(** A list that is already in order is left as it is. *)
Lemma sort_by_key_sorted (l : list A) :
  StronglySorted (key_le key) l → sort_by_key key l = l.
Proof.
  induction 1 as [|x l Hl IH Hx]; simpl; [done|].
  rewrite IH. destruct l as [|y l]; simpl; [done|].
  apply Forall_cons in Hx as [Hxy _].
  unfold key_le, String.le in Hxy. by destruct (String.leb (key x) (key y)).
Qed.

Lemma sort_by_key_idemp (l : list A) :
  sort_by_key key (sort_by_key key l) = sort_by_key key l.
Proof. apply sort_by_key_sorted, sort_by_key_StronglySorted. Qed.

(** Dropping elements keeps a list in order. *)
Lemma StronglySorted_filter_key (P : A → Prop) `{!∀ x, Decision (P x)} (l : list A) :
  StronglySorted (key_le key) l → StronglySorted (key_le key) (filter P l).
Proof.
  induction 1 as [|x l Hl IH Hx]; [constructor|].
  rewrite filter_cons. destruct (decide (P x)); [|done].
  constructor; [done|].
  rewrite Forall_forall in Hx |- *. intros y [_ Hy]%list_elem_of_filter. auto.
Qed.

(** Two orderings of the same elements sort to the same list, provided no
    two elements share a key. *)
Lemma sort_by_key_unique (l1 l2 : list A) :
  NoDup (key <$> l1) → l1 ≡ₚ l2 → sort_by_key key l1 = sort_by_key key l2.
Proof.
  intros Hnd Hperm.
  apply (StronglySorted_unique_strong (key_le key));
    [|apply sort_by_key_StronglySorted..|by rewrite !sort_by_key_Permutation].
  intros x1 x2 H1 H2 H12 H21.
  rewrite sort_by_key_Permutation in H1, H2. rewrite <-Hperm in H2.
  assert (key x1 = key x2) as Hk by (by apply (anti_symm String.le)).
  clear H12 H21 Hperm. induction l1 as [|y l1 IH]; [by apply elem_of_nil in H1|].
  simpl in Hnd. apply NoDup_cons in Hnd as [Hy Hnd].
  apply elem_of_cons in H1 as [->|H1]; apply elem_of_cons in H2 as [->|H2]; try done.
  - exfalso. apply Hy. rewrite Hk. by apply list_elem_of_fmap_2.
  - exfalso. apply Hy. rewrite <-Hk. by apply list_elem_of_fmap_2.
  - by apply IH.
Qed.

End SortFacts.

(** Sorting the images of a list is sorting the list by the composed key. *)
Lemma sort_by_key_fmap {A B : Type} (key : B → string) (f : A → B) (l : list A) :
  sort_by_key key (f <$> l) = f <$> sort_by_key (key ∘ f) l.
Proof.
  induction l as [|x l IH]; csimpl; [done|].
  rewrite IH. generalize (sort_by_key (key ∘ f) l). intros k.
  induction k as [|y k IHk]; csimpl; [done|].
  destruct (String.leb (key (f x)) (key (f y))); csimpl; [done|]. by rewrite IHk.
Qed.

Lemma sort_by_key_ext {A : Type} (k1 k2 : A → string) (l : list A) :
  (∀ x, k1 x = k2 x) → sort_by_key k1 l = sort_by_key k2 l.
Proof.
  intros Hk. induction l as [|x l IH]; simpl; [done|].
  rewrite IH. generalize (sort_by_key k2 l). intros k.
  induction k as [|y k IHk]; simpl; [done|].
  rewrite !Hk. by rewrite IHk.
Qed.

Lemma StronglySorted_key_fmap {A B : Type} (key : B → string) (f : A → B) (l : list A) :
  StronglySorted (key_le (key ∘ f)) l ↔ StronglySorted (key_le key) (f <$> l).
Proof.
  induction l as [|x l IH]; csimpl.
  { split; constructor. }
  split; intros H; apply StronglySorted_inv in H as [Hl Hx]; constructor.
  - by apply IH.
  - by rewrite Forall_fmap.
  - by apply IH.
  - by rewrite Forall_fmap in Hx.
Qed.

(** ** The packager and the repack operation *)

Section ReleaseFacts.
Import Zip Release.

Lemma foldl_snoc_fmap {A B : Type} (g : A → B) (l : list A) (acc : list B) :
  foldl (λ z p, z ++ [g p]) acc l = acc ++ (g <$> l).
Proof.
  revert acc. induction l as [|x l IH]; intros acc; csimpl.
  - by rewrite app_nil_r.
  - rewrite IH. by rewrite <-app_assoc.
Qed.

Lemma foldl_snoc_omap {A B : Type} (g : A → option B) (l : list A) (acc : list B) :
  foldl (λ z p, match g p with Some m => z ++ [m] | None => z end) acc l
  = acc ++ omap g l.
Proof.
  revert acc. induction l as [|x l IH]; intros acc; csimpl.
  - by rewrite app_nil_r.
  - rewrite IH. destruct (g x); [|done]. by rewrite <-app_assoc.
Qed.

(** The header of the packager carries permissions, so [writestr] stores
    it as it is. *)
Lemma written_deterministic_info (src : staged) (arcname : string) :
  written_info (deterministic_info src arcname) = deterministic_info src arcname.
Proof.
  unfold written_info, deterministic_info, perm. cbn [external_attr filename date_time].
  by destruct (is_exe src).
Qed.

(** Written once, a header is stored as it is from then on. *)
Lemma written_info_idemp (i : ZipInfo) : written_info (written_info i) = written_info i.
Proof.
  unfold written_info. cbn [external_attr filename date_time].
  destruct (external_attr i =? 0) eqn:Hz; [done|]. by rewrite Hz.
Qed.

Lemma repacked_info_idemp (i : ZipInfo) : repacked_info (repacked_info i) = repacked_info i.
Proof.
  unfold repacked_info, out_info, written_info. cbn [external_attr filename date_time].
  destruct (external_attr i =? 0) eqn:Hz; [done|]. by rewrite Hz.
Qed.

(** The archive is the image of the sorted file list. *)
Lemma package_fmap (clock : Z) (rglob : list staged) :
  package clock rglob =
  (λ p, mkMember (deterministic_info p (rel_posix p)) (contents p))
    <$> package_files rglob.
Proof.
  unfold package, zip_write_deterministic, writestr.
  rewrite (foldl_snoc_fmap
             (λ p, mkMember (written_info (deterministic_info p (rel_posix p)))
                     (contents p))).
  apply list_fmap_ext. intros _ p _. by rewrite written_deterministic_info.
Qed.

Lemma package_names (clock : Z) (rglob : list staged) :
  names (package clock rglob) = rel_posix <$> package_files rglob.
Proof. rewrite package_fmap. unfold names. by rewrite <-list_fmap_compose. Qed.

(** The members written by the repack: the non-directory headers in sorted
    order, each with the fixed date and the data read under its name. *)
Lemma repack_fmap (zin : archive) :
  repack_zip_deterministic zin =
  (λ i, mkMember (repacked_info i) (default [] (read zin (filename i))))
    <$> kept_infos zin.
Proof.
  unfold repack_zip_deterministic, kept_infos. rewrite foldl_snoc_omap. simpl.
  generalize (sort_by_key filename (info <$> zin)). intros l.
  induction l as [|i l IH]; [done|].
  csimpl. rewrite filter_cons. unfold repack_member at 1.
  destruct (is_dir i) eqn:Hd; simpl.
  - by destruct (decide (true = false)).
  - destruct (decide (false = false)); [|done]. csimpl. by rewrite IH.
Qed.

Lemma repack_names (zin : archive) :
  names (repack_zip_deterministic zin) =
  filter (λ n, ends_with_slash n = false) (sort_by_key id (names zin)).
Proof.
  rewrite repack_fmap. unfold names, kept_infos.
  assert ((λ m, filename (info m)) <$> zin = filename <$> (info <$> zin)) as ->
    by (by rewrite <-list_fmap_compose).
  rewrite (sort_by_key_fmap id filename).
  change (id ∘ filename) with filename.
  generalize (sort_by_key filename (info <$> zin)). intros l.
  induction l as [|i l IH]; [done|].
  csimpl. rewrite !filter_cons. unfold is_dir at 1.
  destruct (decide (ends_with_slash (filename i) = false)); csimpl; by rewrite IH.
Qed.

(** *** Reading a member by name *)

Lemma read_Some (z : archive) (n : string) (d : list byte) :
  read z n = Some d → ∃ m, m ∈ z ∧ filename (info m) = n ∧ data m = d.
Proof.
  induction z as [|m z IH]; simpl; [done|].
  destruct (read z n) as [d'|] eqn:Hr.
  - intros [= <-]. destruct IH as (m' & ? & ? & ?); [done|].
    exists m'. split; [by right|done].
  - destruct (String.eqb_spec (filename (info m)) n) as [Hn|Hn]; [|done].
    intros [= <-]. exists m. split; [by left|done].
Qed.

Lemma read_None (z : archive) (n : string) :
  read z n = None → ∀ m, m ∈ z → filename (info m) ≠ n.
Proof.
  induction z as [|m z IH]; simpl; intros Hr m' Hm'.
  { by apply elem_of_nil in Hm'. }
  destruct (read z n) eqn:Hz; [done|].
  destruct (String.eqb_spec (filename (info m)) n) as [Hn|Hn]; [done|].
  apply elem_of_cons in Hm' as [->|Hm']; [done|]. by apply IH.
Qed.

(** A name taken from the archive's own list is always found. *)
Lemma read_member_name (z : archive) (m : member) :
  m ∈ z → is_Some (read z (filename (info m))).
Proof.
  intros Hm. destruct (read z (filename (info m))) eqn:Hr; [by eexists|].
  by destruct (read_None _ _ Hr m Hm).
Qed.

(** When every member of a given name carries the same data, reading that
    name gives this data. *)
Lemma read_uniform (z : archive) (n : string) (d : list byte) :
  (∀ m, m ∈ z → filename (info m) = n → data m = d) →
  (∃ m, m ∈ z ∧ filename (info m) = n) →
  read z n = Some d.
Proof.
  intros Hall (m & Hm & Hn).
  destruct (read z n) as [d'|] eqn:Hr.
  - apply read_Some in Hr as (m' & Hm' & Hn' & <-). f_equal. by apply Hall.
  - by destruct (read_None _ _ Hr m Hm).
Qed.

(** With pairwise distinct names, reading a member's name gives that
    member's own data. *)
Lemma read_NoDup (z : archive) (m : member) :
  NoDup (names z) → m ∈ z → read z (filename (info m)) = Some (data m).
Proof.
  intros Hnd Hm. apply read_uniform; [|by exists m].
  intros m' Hm' Hn. unfold names in Hnd.
  induction z as [|x z IH]; [by apply elem_of_nil in Hm|].
  csimpl in Hnd. apply NoDup_cons in Hnd as [Hx Hnd].
  apply elem_of_cons in Hm as [->|Hm]; apply elem_of_cons in Hm' as [->|Hm']; try done.
  - exfalso. apply Hx. rewrite <-Hn.
    by apply (list_elem_of_fmap_2 (λ m, filename (info m))).
  - exfalso. apply Hx. rewrite Hn.
    by apply (list_elem_of_fmap_2 (λ m, filename (info m))).
  - by apply IH.
Qed.

Lemma filter_fmap_all {A B : Type} (P : B → Prop) `{!∀ x, Decision (P x)}
    (f : A → B) (l : list A) :
  Forall (λ x, P (f x)) l → filter P (f <$> l) = f <$> l.
Proof.
  induction 1 as [|x l Hx Hl IH]; [done|].
  csimpl. rewrite filter_cons. destruct (decide (P (f x))); [|done]. by rewrite IH.
Qed.

Lemma kept_infos_sorted (zin : archive) :
  StronglySorted (key_le filename) (kept_infos zin).
Proof. apply StronglySorted_filter_key, sort_by_key_StronglySorted. Qed.

Lemma kept_infos_not_dir (zin : archive) :
  Forall (λ i, is_dir i = false) (kept_infos zin).
Proof.
  apply Forall_forall. intros i Hi. by apply list_elem_of_filter in Hi as [? _].
Qed.

Lemma repack_idemp (zin : archive) :
  repack_zip_deterministic (repack_zip_deterministic zin)
  = repack_zip_deterministic zin.
Proof.
  rewrite (repack_fmap (repack_zip_deterministic zin)).
  unfold kept_infos at 1. rewrite !(repack_fmap zin).
  rewrite <-list_fmap_compose.
  assert (info ∘ (λ i, mkMember (repacked_info i)
                         (default [] (read zin (filename i))))
          = repacked_info) as -> by done.
  rewrite (sort_by_key_fmap filename repacked_info).
  change (filename ∘ repacked_info) with filename.
  rewrite (sort_by_key_sorted filename) by apply kept_infos_sorted.
  rewrite (filter_fmap_all (λ i, is_dir i = false))
    by (eapply Forall_impl; [apply kept_infos_not_dir|done]).
  rewrite <-list_fmap_compose.
  apply Forall_fmap_ext_1, Forall_forall. intros i Hi.
  cbn [compose]. rewrite repacked_info_idemp. f_equal.
  change (filename (repacked_info i)) with (filename i).
  set (R := _ <$> kept_infos zin).
  assert (read R (filename i) = Some (default [] (read zin (filename i)))) as ->; [|done].
  apply read_uniform.
  - intros m [j [-> Hj]]%list_elem_of_fmap. simpl. by intros ->.
  - eexists. split; [apply list_elem_of_fmap_2, Hi|done].
Qed.

Lemma names_sorted_of_key_sorted {A : Type} (key : A → string) (l : list A) :
  StronglySorted (key_le key) l → StronglySorted String.le (key <$> l).
Proof.
  induction 1 as [|x l Hl IH Hx]; csimpl; constructor; [done|].
  by rewrite Forall_fmap.
Qed.

Lemma package_names_sorted (clock : Z) (rglob : list staged) :
  StronglySorted String.le (names (package clock rglob)).
Proof.
  rewrite package_names. apply names_sorted_of_key_sorted.
  apply sort_by_key_StronglySorted.
Qed.

Lemma repack_names_sorted (zin : archive) :
  StronglySorted String.le (names (repack_zip_deterministic zin)).
Proof.
  rewrite repack_fmap. unfold names. rewrite <-list_fmap_compose.
  change (StronglySorted String.le (filename <$> kept_infos zin)).
  apply names_sorted_of_key_sorted, kept_infos_sorted.
Qed.

(** C1, as the code has it: the packager writes exactly the regular files
    of the enumeration, in ascending order of their relative posix path
    compared character code by character code (case-sensitively); the
    repack writes its entries in the same case-sensitive order of name.
    For the files a.txt, B.txt and sub/c.bin staged under AuraSDK/ the
    entries come out as B.txt, a.txt, sub/c.bin. *)
Theorem package_order_code_point :
  (∀ (clock : Z) (rglob : list staged),
     StronglySorted String.le (names (package clock rglob)) ∧
     names (package clock rglob) ≡ₚ rel_posix <$> filter (λ p, is_file p = true) rglob) ∧
  (∀ zin : archive, StronglySorted String.le (names (repack_zip_deterministic zin))) ∧
  (∀ clock : Z,
     names (package clock
              [mkStaged "AuraSDK/a.txt" true [] None 0;
               mkStaged "AuraSDK/B.txt" true [] None 0;
               mkStaged "AuraSDK/sub" false [] None 0;
               mkStaged "AuraSDK/sub/c.bin" true [] None 0])
     = ["AuraSDK/B.txt"; "AuraSDK/a.txt"; "AuraSDK/sub/c.bin"]).
Proof.
  split; [|split].
  - intros clock rglob. split; [apply package_names_sorted|].
    rewrite package_names. unfold package_files.
    by rewrite sort_by_key_Permutation.
  - apply repack_names_sorted.
  - intros clock. reflexivity.
Qed.

(** C1 as stated fails: for a.txt, B.txt and sub/c.bin the packager does not
    produce the order a.txt, B.txt, sub/c.bin, its entry names are not in
    case-insensitive order, and neither are those of the repack. *)
Lemma package_order_not_case_insensitive :
  names (package 0
           [mkStaged "AuraSDK/a.txt" true [] None 0;
            mkStaged "AuraSDK/B.txt" true [] None 0;
            mkStaged "AuraSDK/sub/c.bin" true [] None 0])
    ≠ ["AuraSDK/a.txt"; "AuraSDK/B.txt"; "AuraSDK/sub/c.bin"] ∧
  ¬ Sorted casefold_le
      (names (package 0
                [mkStaged "AuraSDK/a.txt" true [] None 0;
                 mkStaged "AuraSDK/B.txt" true [] None 0;
                 mkStaged "AuraSDK/sub/c.bin" true [] None 0])) ∧
  ¬ Sorted casefold_le
      (names (repack_zip_deterministic
                [mkMember (mkZipInfo "a.txt" (2024, 5, 17, 10, 30, 0) 0) [];
                 mkMember (mkZipInfo "B.txt" (2024, 5, 17, 10, 30, 2) 0) [];
                 mkMember (mkZipInfo "sub/c.bin" (2024, 5, 17, 10, 30, 4) 0) []])).
Proof.
  split; [|split].
  - vm_compute. discriminate.
  - intros H. apply Sorted_inv in H as [_ H]. apply HdRel_inv in H.
    vm_compute in H. done.
  - intros H. apply Sorted_inv in H as [_ H]. apply HdRel_inv in H.
    vm_compute in H. done.
Qed.

(** *** Archives as bytes

    [zipfile] turns the sequence of [writestr] calls into the bytes of the
    archive file, and [sha256_file] digests those bytes.  Both are functions
    of their input; they are left abstract. *)

Section Bytes.
Context (zip_bytes : archive → list byte) (sha256_file : list byte → string).

Lemma package_observed (clock : Z) (rglob : list staged) :
  package clock rglob =
  (λ o : string * list byte * option Z,
     mkMember (deterministic_info (mkStaged o.1.1 true o.1.2 o.2 0) o.1.1) o.1.2)
    <$> sort_by_key (λ o, o.1.1) (observed <$> filter (λ p, is_file p = true) rglob).
Proof.
  rewrite package_fmap. unfold package_files.
  rewrite (sort_by_key_fmap (λ o : string * list byte * option Z, o.1.1) observed).
  by rewrite <-list_fmap_compose.
Qed.

(** The test [st_mode & 0o111] (73 is [0o111]) is the test of the three
    executable bits of the mode: those of the owner (bit 6), of the group
    (bit 3) and of the others (bit 0). *)
Lemma land_o111_exec_bits (mode : Z) :
  (Z.land mode 73 =? 0) = negb (Z.testbit mode 6 || Z.testbit mode 3 || Z.testbit mode 0).
Proof.
  destruct (Z.eqb_spec (Z.land mode 73) 0) as [Hz|Hnz].
  - assert (∀ k, Z.testbit 73 k = true → Z.testbit mode k = false) as Hbit.
    { intros k Hk. pose proof (Z.land_spec mode 73 k) as Hl.
      rewrite Hz, Z.bits_0, Hk, andb_true_r in Hl. done. }
    by rewrite !Hbit.
  - destruct (Z.testbit mode 6) eqn:H6; [done|].
    destruct (Z.testbit mode 3) eqn:H3; [done|].
    destruct (Z.testbit mode 0) eqn:H0; [done|].
    destruct Hnz. apply Z.bits_inj'. intros k Hk.
    rewrite Z.land_spec, Z.bits_0.
    destruct (decide (k < 7)) as [Hlt|Hge].
    + assert (k = 0 ∨ k = 1 ∨ k = 2 ∨ k = 3 ∨ k = 4 ∨ k = 5 ∨ k = 6) as Hcases by lia.
      destruct_or!; subst k; rewrite ?H0, ?H3, ?H6; try done;
        apply andb_false_r.
    + rewrite (Z.bits_above_log2 73 k); [apply andb_false_r|lia|].
      change (Z.log2 73) with 6. lia.
Qed.

(** C4: two runs of the packager over staged trees with the same files
    (same relative paths, same bytes, same modes), whatever the order in
    which the filesystem enumerates them, whatever their modification times
    and whatever the clocks of the two machines, write the same members and
    so the same archive bytes and the same digest.  Every member carries the
    date (1980,1,1,0,0,0) and, shifted into the high half of the external
    attributes, the permission 0o755 (493) when the source file's mode has
    an executable bit, that is when [st_mode & 0o111] (73 is [0o111]) is not
    0, and the permission 0o644 (420) otherwise, also when [stat()]
    raises. *)
Theorem package_deterministic (clock1 clock2 : Z) (rglob1 rglob2 : list staged) :
  NoDup (rel_posix <$> filter (λ p, is_file p = true) rglob1) →
  observed <$> filter (λ p, is_file p = true) rglob1
    ≡ₚ observed <$> filter (λ p, is_file p = true) rglob2 →
  package clock1 rglob1 = package clock2 rglob2 ∧
  zip_bytes (package clock1 rglob1) = zip_bytes (package clock2 rglob2) ∧
  sha256_file (zip_bytes (package clock1 rglob1))
    = sha256_file (zip_bytes (package clock2 rglob2)) ∧
  package clock1 rglob1 =
    (λ p, {| info := {| filename := rel_posix p;
                        date_time := (1980, 1, 1, 0, 0, 0);
                        external_attr :=
                          match st_mode p with
                          | Some mode =>
                              if Z.land mode 73 =? 0 then Z.shiftl 420 16
                              else Z.shiftl 493 16
                          | None => Z.shiftl 420 16
                          end |};
             data := contents p |})
      <$> package_files rglob1.
Proof.
  intros Hnd Hperm.
  assert (package clock1 rglob1 = package clock2 rglob2) as Heq.
  { rewrite !package_observed. f_equal.
    apply sort_by_key_unique; [|done].
    rewrite <-list_fmap_compose. exact Hnd. }
  rewrite Heq. repeat split.
  rewrite <-Heq, package_fmap.
  apply Forall_fmap_ext_1, Forall_forall. intros p _.
  unfold deterministic_info, perm, is_exe. change o111 with 73.
  destruct (st_mode p) as [mode|]; [|done].
  by destruct (Z.land mode 73 =? 0).
Qed.

(** C5: repacking the output of a repack writes the same members as the
    first repack did, hence the same archive bytes and the same digest.  (A
    member without external attributes is stored with [0o600 << 16] by the
    first repack, as [zipfile] does for any such header; the second repack
    finds these attributes and keeps them.) *)
Theorem repack_idempotent (zin : archive) :
  repack_zip_deterministic (repack_zip_deterministic zin)
    = repack_zip_deterministic zin ∧
  sha256_file (zip_bytes (repack_zip_deterministic (repack_zip_deterministic zin)))
    = sha256_file (zip_bytes (repack_zip_deterministic zin)).
Proof. by rewrite repack_idemp. Qed.

End Bytes.

(** [package_deterministic] at two enumerations of the same two files in
    opposite orders, with different modification times and under different
    clocks; the archive bytes are taken to be the members' data in order. *)
Lemma package_deterministic_witness :
  package 1700000000
    [mkStaged "AuraSDK/bin/aura" true ["x"%byte] (Some 33261) 1700000001;
     mkStaged "AuraSDK/bin" false [] (Some 16877) 1700000002;
     mkStaged "AuraSDK/install.sh" true ["y"%byte] (Some 33188) 1700000003]
  = package 1800000000
      [mkStaged "AuraSDK/install.sh" true ["y"%byte] (Some 33188) 1800000007;
       mkStaged "AuraSDK/bin/aura" true ["x"%byte] (Some 33261) 1800000009].
Proof.
  apply (package_deterministic (λ z, mjoin (data <$> z)) (λ _, "")).
  - apply (bool_decide_unpack _). vm_compute. reflexivity.
  - vm_compute. apply Permutation_swap.
Defined.

(** What the repack keeps and what it changes, member by member. *)
Lemma repack_members (zin : archive) :
  info <$> repack_zip_deterministic zin = repacked_info <$> kept_infos zin ∧
  kept_infos zin ≡ₚ filter (λ i, is_dir i = false) (info <$> zin) ∧
  Forall (λ m, date_time (info m) = (1980, 1, 1, 0, 0, 0) ∧
               read zin (filename (info m)) = Some (data m))
         (repack_zip_deterministic zin).
Proof.
  split; [|split].
  - rewrite repack_fmap. by rewrite <-list_fmap_compose.
  - unfold kept_infos. by rewrite sort_by_key_Permutation.
  - rewrite repack_fmap. apply Forall_fmap, Forall_forall. intros i Hi. simpl.
    split; [done|].
    apply list_elem_of_filter in Hi as [_ Hi].
    rewrite sort_by_key_Permutation in Hi.
    apply list_elem_of_fmap in Hi as (m & -> & Hm).
    by destruct (read_member_name zin m Hm) as [d ->].
Qed.

(** With pairwise distinct member names the data written for a kept member
    is that member's own data. *)
Lemma repack_data_distinct_names (zin : archive) (m : member) :
  NoDup (names zin) → m ∈ zin → is_dir (info m) = false →
  mkMember (repacked_info (info m)) (data m) ∈ repack_zip_deterministic zin.
Proof.
  intros Hnd Hm Hdir. rewrite repack_fmap.
  apply list_elem_of_fmap. exists (info m). split.
  - by rewrite (read_NoDup zin m Hnd Hm).
  - apply list_elem_of_filter. split; [done|].
    rewrite sort_by_key_Permutation. by apply list_elem_of_fmap_2.
Qed.

(** C10 at an archive holding two members named a.txt with different
    data: the repack writes the data of the second member for both, so the
    first member's content is not preserved.  The directory member is
    dropped, names and the (non-zero) external attributes are kept, dates
    are replaced. *)
Theorem repack_duplicate_name_data :
  repack_zip_deterministic
    [mkMember (mkZipInfo "a.txt" (2024, 5, 17, 10, 30, 0) 27525120) ["1"%byte];
     mkMember (mkZipInfo "d/" (2024, 5, 17, 10, 30, 2) 1107099664) [];
     mkMember (mkZipInfo "a.txt" (2024, 5, 17, 10, 30, 4) 32309248) ["2"%byte]]
  = [mkMember (mkZipInfo "a.txt" (1980, 1, 1, 0, 0, 0) 27525120) ["2"%byte];
     mkMember (mkZipInfo "a.txt" (1980, 1, 1, 0, 0, 0) 32309248) ["2"%byte]].
Proof. reflexivity. Qed.
End ReleaseFacts.

(** ** Signing *)

Section SigningFacts.
Import Release.




End SigningFacts.

(** ** The child environment of [run_command] *)

Section EnvFacts.
Import Builder.

Lemma lookup_stringify_overrides (env : gmap string pyval) (k : string) :
  stringify_overrides env !! k =
  match env !! k with
  | Some PyNone | None => None
  | Some v => Some (py_str v)
  end.
Proof.
  unfold stringify_overrides. rewrite lookup_omap.
  destruct (env !! k) as [[]|]; done.
Qed.

(** C9, as the code has it: the dictionary handed to the child process is
    the ambient environment updated by the overrides whose value is not
    [None], each converted with [str]; such an override wins on a key
    collision, and a [None]-valued override leaves the ambient value in
    place.  The dictionary of [os.environ], and every other dictionary
    already in the store, is left as it was. *)
Theorem run_command_env_merge (h : store) (environ : nat)
    (env : option (gmap string pyval)) :
  (∀ r, is_Some (objs h !! r) → (r < next_ref h)%nat) →
  is_Some (objs h !! environ) →
  let '(h', merged_env) := run_command_env h environ env in
  deref h' merged_env = stringify_overrides (default ∅ env) ∪ deref h environ ∧
  (∀ k, deref h' merged_env !! k =
        match default ∅ env !! k with
        | Some PyNone | None => deref h environ !! k
        | Some v => Some (py_str v)
        end) ∧
  deref h' environ = deref h environ ∧
  (∀ r, is_Some (objs h !! r) → objs h' !! r = objs h !! r).
Proof.
  intros Hwf Henv.
  assert (environ ≠ next_ref h) as Hne by (apply Hwf in Henv; lia).
  assert (∀ (o : gmap string pyval) h' r,
    deref h' r = stringify_overrides o ∪ deref h environ →
    ∀ k, deref h' r !! k =
      match o !! k with
      | Some PyNone | None => deref h environ !! k
      | Some v => Some (py_str v)
      end) as Hkey.
  { intros o h' r -> k. rewrite lookup_union, lookup_stringify_overrides.
    destruct (o !! k) as [[]|]; simpl;
      by rewrite ?union_Some_l, ?(left_id None _). }
  unfold run_command_env, dict_copy.
  destruct env as [e|]; [destruct (bool_decide_reflect (e = ∅)) as [->|He]|]; simpl.
  - assert (stringify_overrides ∅ = ∅) as Hemp
      by (apply map_eq; intros k; by rewrite lookup_stringify_overrides, !lookup_empty).
    assert (deref {| objs := <[next_ref h:=default ∅ (objs h !! environ)]> (objs h);
                     next_ref := S (next_ref h) |} (next_ref h)
            = stringify_overrides ∅ ∪ deref h environ) as Hd.
    { unfold deref. simpl. rewrite lookup_insert_eq, Hemp. by rewrite (left_id ∅ _). }
    split; [done|]. split; [by apply Hkey|]. split.
    + unfold deref. simpl. by rewrite lookup_insert_ne.
    + intros r Hr. apply lookup_insert_ne. apply Hwf in Hr. lia.
  - assert (deref (dict_update
               {| objs := <[next_ref h:=default ∅ (objs h !! environ)]> (objs h);
                  next_ref := S (next_ref h) |} (next_ref h) (stringify_overrides e))
               (next_ref h)
            = stringify_overrides e ∪ deref h environ) as Hd.
    { unfold deref, dict_update. simpl. by rewrite lookup_alter_eq, lookup_insert_eq. }
    split; [done|]. split; [by apply Hkey|]. split.
    + unfold deref, dict_update. simpl.
      by rewrite lookup_alter_ne, lookup_insert_ne.
    + intros r Hr. unfold dict_update. simpl. apply Hwf in Hr.
      rewrite lookup_alter_ne, lookup_insert_ne by lia. done.
  - assert (stringify_overrides ∅ = ∅) as Hemp
      by (apply map_eq; intros k; by rewrite lookup_stringify_overrides, !lookup_empty).
    assert (deref {| objs := <[next_ref h:=default ∅ (objs h !! environ)]> (objs h);
                     next_ref := S (next_ref h) |} (next_ref h)
            = stringify_overrides ∅ ∪ deref h environ) as Hd.
    { unfold deref. simpl. rewrite lookup_insert_eq, Hemp. by rewrite (left_id ∅ _). }
    split; [done|]. split; [by apply Hkey|]. split.
    + unfold deref. simpl. by rewrite lookup_insert_ne.
    + intros r Hr. apply lookup_insert_ne. apply Hwf in Hr. lia.
Qed.

(** [run_command_env_merge] at a store holding [os.environ] only, with one
    colliding and one new override. *)
Lemma run_command_env_merge_witness :
  let '(h', merged_env) :=
    run_command_env
      {| objs := {[ 0%nat := <["PATH" := "/usr/bin"]> {[ "JAVA_HOME" := "/opt/jdk11" ]} ]};
         next_ref := 1 |}
      0%nat
      (Some (<["JAVA_HOME" := PyStr ".tools/jdk-17"]> {[ "ANDROID_HOME" := PyStr "/sdk" ]}))
  in
  deref h' merged_env !! "JAVA_HOME" = Some ".tools/jdk-17" ∧
  deref h' merged_env !! "PATH" = Some "/usr/bin" ∧
  deref h' 0%nat !! "JAVA_HOME" = Some "/opt/jdk11".
Proof.
  pose proof (run_command_env_merge
    {| objs := {[ 0%nat := <["PATH" := "/usr/bin"]> {[ "JAVA_HOME" := "/opt/jdk11" ]} ]};
       next_ref := 1 |}
    0%nat
    (Some (<["JAVA_HOME" := PyStr ".tools/jdk-17"]> {[ "ANDROID_HOME" := PyStr "/sdk" ]})))
    as H.
  destruct (run_command_env _ _ _) as [h' merged_env].
  destruct H as (_ & Hkey & Henv & _).
  - intros r [d Hd]. simpl in Hd. apply lookup_singleton_Some in Hd as [<- _]. simpl. lia.
  - simpl. rewrite lookup_singleton_eq. by eexists.
  - rewrite !Hkey, Henv. vm_compute. done.
Defined.

(** C9 as stated fails: an override whose value is [None] does not win the
    collision; the child keeps the ambient value of that key. *)
Lemma run_command_env_none_override :
  let ambient : gmap string string := {[ "JAVA_HOME" := "/opt/jdk11" ]} in
  let overrides : gmap string pyval :=
    <["JAVA_HOME" := PyNone]> {[ "ANDROID_HOME" := PyStr "/sdk" ]} in
  let r := run_command_env {| objs := {[ 0%nat := ambient ]}; next_ref := 1 |}
             0%nat (Some overrides) in
  deref r.1 r.2 !! "JAVA_HOME" = Some "/opt/jdk11" ∧
  ¬ (∀ k v, overrides !! k = Some v → deref r.1 r.2 !! k = Some (py_str v)).
Proof.
  split; [by vm_compute|].
  intros H. specialize (H "JAVA_HOME" PyNone eq_refl). vm_compute in H. done.
Qed.

End EnvFacts.

(** ** The manifest *)

Section ManifestFacts.
Import Manifest.

Lemma lookup_components_append (c : components) (category : string) (e : file_entry)
    (k : string) :
  lookup_category (components_append c category e) k =
  if decide (k = category)
  then Some (default [] (lookup_category c category) ++ [e])
  else lookup_category c k.
Proof.
  unfold lookup_category. destruct (decide (k = category)) as [->|Hne].
  - induction c as [|[k' es] c IH]; simpl.
    + by rewrite String.eqb_refl.
    + destruct (String.eqb_spec k' category) as [->|Hk']; simpl.
      * by rewrite String.eqb_refl.
      * destruct (String.eqb_spec k' category); [done|]. exact IH.
  - induction c as [|[k' es] c IH]; simpl.
    + by destruct (String.eqb_spec category k) as [->|].
    + destruct (String.eqb_spec k' category) as [->|Hk']; simpl.
      * by destruct (String.eqb_spec category k) as [->|].
      * destruct (String.eqb_spec k' k); [done|]. exact IH.
Qed.

Lemma recorded_append_new (c : components) (category : string) (e : file_entry) :
  recorded (components_append c category e) category e.
Proof.
  eexists. rewrite lookup_components_append, decide_True by done.
  split; [done|]. apply elem_of_app. right. by apply list_elem_of_singleton.
Qed.

Lemma recorded_append_old (c : components) (category k : string) (e e' : file_entry) :
  recorded c k e' → recorded (components_append c category e) k e'.
Proof.
  intros (es & Hes & He'). unfold recorded.
  rewrite lookup_components_append. destruct (decide (k = category)) as [->|]; [|eauto].
  eexists. split; [done|]. rewrite Hes. apply elem_of_app. by left.
Qed.

Lemma recorded_fold_files (root : list string) (files : list (string * Z))
    (c : components) (k : string) (e : file_entry) :
  recorded c k e → recorded (foldl (record_file root) c files) k e.
Proof.
  revert c. induction files as [|f files IH]; intros c Hc; [done|].
  simpl. apply IH. by apply recorded_append_old.
Qed.

Lemma recorded_fold_files_new (root : list string) (files : list (string * Z))
    (c : components) (f : string * Z) :
  f ∈ files →
  recorded (foldl (record_file root) c files)
    (category_of (root ++ [f.1]))
    {| file := join_posix (root ++ [f.1]); size_bytes := f.2 |}.
Proof.
  revert c. induction files as [|g files IH]; intros c Hf.
  { by apply elem_of_nil in Hf. }
  apply elem_of_cons in Hf as [->|Hf]; simpl; [|by apply IH].
  apply recorded_fold_files, recorded_append_new.
Qed.

(** Every file of every walked directory is listed, with its size, under
    the first component of its path relative to the walked root. *)
Lemma generate_manifest_records (dist_root : node) (root : list string)
    (dirs : list string) (files : list (string * Z)) (f : string * Z) :
  (root, dirs, files) ∈ walk [] dist_root → f ∈ files →
  recorded (generate_manifest dist_root)
    (category_of (root ++ [f.1]))
    {| file := join_posix (root ++ [f.1]); size_bytes := f.2 |}.
Proof.
  unfold generate_manifest. generalize (walk [] dist_root) (@nil (string * list file_entry)).
  intros triples. induction triples as [|[[r ds] fs] triples IH]; intros c Ht Hf.
  { by apply elem_of_nil in Ht. }
  apply elem_of_cons in Ht as [[= <- <- <-]|Ht]; simpl; [|by apply IH].
  assert (∀ c0 k e, recorded c0 k e →
    recorded (foldl (λ c1 '(root0, _, files0), foldl (record_file root0) c1 files0)
                c0 triples) k e) as Hmono.
  { clear. induction triples as [|[[r ds] fs] triples IH]; intros c0 k e Hc; [done|].
    simpl. apply IH. by apply recorded_fold_files. }
  apply Hmono. by apply recorded_fold_files_new.
Qed.

Lemma replace_backslash_app (a b : string) :
  replace_backslash (a +:+ b) = replace_backslash a +:+ replace_backslash b.
Proof. induction a as [|c a IH]; simpl; [done|]. by rewrite IH. Qed.

Lemma replace_backslash_idemp (a : string) :
  replace_backslash (replace_backslash a) = replace_backslash a.
Proof.
  induction a as [|c a IH]; simpl; [done|]. rewrite IH. f_equal.
  by destruct (Ascii.eqb c (ascii_of_nat 92)) eqn:Hc; [|rewrite Hc].
Qed.

(** The text recorded for a file does not depend on the separator of the
    platform: joined by backslashes, as on Windows, the components give the
    text they give joined by slashes. *)
Lemma join_posix_windows (parts : list string) :
  replace_backslash (str_path (String (ascii_of_nat 92) "") parts) = join_posix parts.
Proof.
  unfold join_posix. induction parts as [|p [|q parts] IH]; [done..|].
  change (str_path ?sep (p :: q :: parts))
    with (p +:+ sep +:+ str_path sep (q :: parts)).
  rewrite !replace_backslash_app, IH. done.
Qed.

(** The category of a file in a subdirectory is the top-level directory;
    the category of a file directly under the root is the file's own name. *)
Lemma category_of_rel_path (root : list string) (name : string) :
  category_of (root ++ [name]) = match root with [] => name | d :: _ => d end.
Proof. by destruct root. Qed.

(** C6 at a tree with README.md directly under the root and aura.exe under
    bin/: aura.exe is listed under bin with its size, README.md is listed
    under the category README.md, and there is no category root. *)
Theorem generate_manifest_root_file :
  generate_manifest
    (Dir [("README.md", File 1834); ("bin", Dir [("aura.exe", File 7340032)])])
  = [("README.md", [{| file := "README.md"; size_bytes := 1834 |}]);
     ("bin", [{| file := "bin/aura.exe"; size_bytes := 7340032 |}])] ∧
  lookup_category
    (generate_manifest
       (Dir [("README.md", File 1834); ("bin", Dir [("aura.exe", File 7340032)])]))
    "root" = None.
Proof. split; reflexivity. Qed.

End ManifestFacts.

(** ** The step pipeline of [AuraBuilder] *)

Section PipelineFacts.
Import Pipeline.
Context {E : Type}.
Context (build_aura_core build_sentinel_ide setup_android_toolchain
         build_android_apk copy_android_apk_to_dist verify_binaries
         create_distribution generate_manifest collect_markdown_docs
         rearrange_roadmap_summary reorg_repo_root : @action E).

Local Abbreviation run := (run_selected_steps build_aura_core build_sentinel_ide
  setup_android_toolchain build_android_apk copy_android_apk_to_dist verify_binaries
  create_distribution generate_manifest collect_markdown_docs
  rearrange_roadmap_summary reorg_repo_root).
Local Abbreviation lookup := (step_lookup build_aura_core build_sentinel_ide
  setup_android_toolchain build_android_apk copy_android_apk_to_dist verify_binaries
  create_distribution generate_manifest collect_markdown_docs
  rearrange_roadmap_summary reorg_repo_root).
Local Abbreviation resolve := (resolve_steps build_aura_core build_sentinel_ide
  setup_android_toolchain build_android_apk copy_android_apk_to_dist verify_binaries
  create_distribution generate_manifest collect_markdown_docs
  rearrange_roadmap_summary reorg_repo_root).

(** A selection of unknown keys resolves to no step and records one failure
    per key. *)
Lemma resolve_steps_unknown (selected : list string) (ordered : list (string * action))
    (b : builder) :
  Forall (λ key, lookup key = None) selected →
  (resolve selected ordered b).1 = ordered ∧
  length (failed_steps (resolve selected ordered b).2)
    = (length (failed_steps b) + length selected)%nat.
Proof.
  intros Hsel. revert b. induction Hsel as [|key selected Hkey _ IH]; intros b; simpl.
  { split; [done|lia]. }
  rewrite Hkey. destruct (IH (_step_failed "args" ("Unknown step: " +:+ key) b))
    as [-> ->].
  split; [done|]. unfold _step_failed. simpl. rewrite length_app. simpl. lia.
Qed.

(** Whatever the steps do, a selection made of unknown keys only exits with
    status 0 although a failure was recorded for each key. *)
Lemma run_selected_steps_all_unknown (selected : list string) (b : builder) :
  Forall (λ key, lookup key = None) selected →
  (run selected b).1 = 0 ∧
  length (failed_steps (run selected b).2)
    = (length (failed_steps b) + length selected)%nat.
Proof.
  intros Hsel. unfold run_selected_steps.
  destruct (resolve_steps_unknown selected [] b Hsel) as [Hord Hlen].
  destruct (resolve selected [] b) as [ordered b']. simpl in *. subst ordered.
  simpl. done.
Qed.

(** C2 at the selection ["bogus"]: the unknown key is recorded as a failed
    step ("args", "Unknown step: bogus"), no step runs, and the exit status
    is 0. *)
Theorem run_selected_steps_unknown_key (b : builder) :
  run ["bogus"] b =
  (0, {| failed_steps := failed_steps b ++ [("args", "Unknown step: bogus")];
         ext := ext b |}).
Proof. reflexivity. Qed.

End PipelineFacts.


(** The loop over the resolved steps has no [break]: running a list of
    steps followed by another is running the first list and then the second
    one from the count and the builder the first left, whatever failed in
    the first. *)
Lemma run_ordered_app {E : Type} (l1 l2 : list (string * @Pipeline.action E))
    (n : nat) (b : Pipeline.builder) :
  Pipeline.run_ordered (l1 ++ l2) n b
  = Pipeline.run_ordered l2 (Pipeline.run_ordered l1 n b).1
      (Pipeline.run_ordered l1 n b).2.
Proof.
  revert n b. induction l1 as [|[name f] l1 IH]; intros n b; simpl; [done|].
  destruct (f b) as [[| |e] b']; apply IH.
Qed.

(** ** The Gradle setup pipeline *)

Section GradleFacts.
Import Pipeline Gradle.
Context {W : Type}.

Lemma run_step_not_fatal (name : string) (f : @action W) (l : loop) :
  name ≠ "Build APK" → stopped (run_step (name, f) l) = false.
Proof.
  intros Hname. unfold run_step. destruct (f (machine l)) as [[| |e] m]; simpl.
  - done.
  - apply negb_false_iff, bool_decide_eq_true. by rewrite list_elem_of_singleton.
  - by apply bool_decide_eq_false.
Qed.

Lemma run_step_fatal (f : @action W) (l : loop) :
  (f (machine l)).1 ≠ RetTrue →
  stopped (run_step ("Build APK", f) l) = true ∧
  failed_steps (run_step ("Build APK", f) l) = S (failed_steps l) ∧
  machine (run_step ("Build APK", f) l) = (f (machine l)).2.
Proof.
  unfold run_step. destruct (f (machine l)) as [[| |e] m]; simpl; done.
Qed.

Lemma run_steps_not_fatal (pre : list (string * @action W)) (l : loop) :
  Forall (λ s, s.1 ≠ "Build APK") pre → stopped l = false →
  stopped (run_steps pre l) = false.
Proof.
  intros Hpre. revert l. induction Hpre as [|[name f] pre Hname _ IH]; intros l Hl; [done|].
  cbn [run_steps]. rewrite run_step_not_fatal by done. apply IH.
  by apply run_step_not_fatal.
Qed.

Lemma run_steps_app (pre post : list (string * @action W)) (l : loop) :
  stopped l = false →
  run_steps (pre ++ post) l =
  if stopped (run_steps pre l) then run_steps pre l
  else run_steps post (run_steps pre l).
Proof.
  revert l. induction pre as [|s pre IH]; intros l Hl; cbn [run_steps app].
  { by rewrite Hl. }
  destruct (stopped (run_step s l)) eqn:Hs.
  - by rewrite Hs.
  - by apply IH.
Qed.

(** Every line written during the loop names one of the steps given. *)
Lemma run_steps_log (steps : list (string * @action W)) (l : loop) (line : log_line) :
  line ∈ log (run_steps steps l) → line ∈ log l ∨ line_step line ∈ steps.*1.
Proof.
  revert l. induction steps as [|[name f] steps IH]; intros l; cbn [run_steps];
    [by left|].
  assert (line ∈ log (run_step (name, f) l) → line ∈ log l ∨ line_step line = name)
    as Hstep.
  { unfold run_step. destruct (f (machine l)) as [[| |e] m]; simpl;
      rewrite ?elem_of_app, ?list_elem_of_singleton; intros H;
      destruct_or?; subst; auto. }
  destruct (stopped (run_step (name, f) l)).
  - intros [?| ->]%Hstep; [by left|]. right. by left.
  - intros [[?| ->]%Hstep|?]%IH; [by left| |].
    + right. by left.
    + right. by right.
Qed.

(** Once the step named "Build APK" fails, the loop ends with the state
    that step left: nothing listed after it is run or logged. *)
Lemma run_steps_fatal (pre post : list (string * @action W)) (f : @action W) (l : loop) :
  stopped l = false →
  Forall (λ s, s.1 ≠ "Build APK") pre →
  (f (machine (run_steps pre l))).1 ≠ RetTrue →
  run_steps (pre ++ ("Build APK", f) :: post) l
  = run_step ("Build APK", f) (run_steps pre l).
Proof.
  intros Hl Hpre Hf. rewrite run_steps_app by done.
  rewrite run_steps_not_fatal by done. cbn [run_steps].
  by destruct (run_step_fatal f (run_steps pre l) Hf) as [-> _].
Qed.

Context (download_gradle extract_gradle setup_gradle_wrapper verify_wrapper
         build_apk copy_apk_to_dist : @action W).

(** C3, as the code has it: in [setup_and_build], when the step
    "Build APK" does not return true (it returns false or raises), the run
    ends there.  The step after it, "Copy to Distribution", is not executed,
    no line is logged for it (there is no skipped status), and the exit
    status is 1.  The result is the state the failed step left.  The loop of
    [run_selected_steps] over the resolved steps has no fatal step: the
    steps listed after any step, whether it failed or not, are run from the
    failure count and the builder that step left, and a step that does not
    return true adds one to the count. *)
Theorem setup_and_build_fatal (m : W) :
  let before :=
    run_steps [("Download Gradle", download_gradle);
               ("Extract Gradle", extract_gradle);
               ("Generate Wrapper", setup_gradle_wrapper);
               ("Verify Wrapper", verify_wrapper)]
      {| failed_steps := 0; machine := m; log := []; stopped := false |} in
  ((build_apk (machine before)).1 ≠ RetTrue →
   let '(status, l) :=
     setup_and_build download_gradle extract_gradle setup_gradle_wrapper
       verify_wrapper build_apk copy_apk_to_dist m in
   status = 1 ∧
   l = run_step ("Build APK", build_apk) before ∧
   machine l = (build_apk (machine before)).2 ∧
   (∀ line, line ∈ log l → line_step line ≠ "Copy to Distribution")) ∧
  (∀ (E : Type) (pre post : list (string * @Pipeline.action E))
     (step : string * @Pipeline.action E) (n : nat) (b : Pipeline.builder),
     let reached := Pipeline.run_ordered pre n b in
     let left := Pipeline.run_ordered (pre ++ [step]) n b in
     Pipeline.run_ordered (pre ++ step :: post) n b
       = Pipeline.run_ordered post left.1 left.2 ∧
     ((step.2 reached.2).1 ≠ RetTrue → left.1 = S reached.1)).
Proof.
  intros before. split; [intros Hfail|].
  2:{ intros E pre post step n b reached left. subst reached left. split.
      - rewrite <-run_ordered_app. by rewrite <-app_assoc.
      - rewrite run_ordered_app. destruct step as [name f]. cbn [snd Pipeline.run_ordered].
        by destruct (f (Pipeline.run_ordered pre n b).2) as [[| |e] b']. }
  unfold setup_and_build, steps.
  set (l0 := {| failed_steps := 0; machine := m; log := []; stopped := false |}).
  change (run_steps _ l0) with
    (run_steps ([("Download Gradle", download_gradle);
                 ("Extract Gradle", extract_gradle);
                 ("Generate Wrapper", setup_gradle_wrapper);
                 ("Verify Wrapper", verify_wrapper)]
                ++ ("Build APK", build_apk) :: [("Copy to Distribution", copy_apk_to_dist)])
       l0).
  assert (Forall (λ s : string * @action W, s.1 ≠ "Build APK")
            [("Download Gradle", download_gradle);
             ("Extract Gradle", extract_gradle);
             ("Generate Wrapper", setup_gradle_wrapper);
             ("Verify Wrapper", verify_wrapper)]) as Hpre
    by (repeat constructor; done).
  rewrite run_steps_fatal by done. subst l0. fold before.
  destruct (run_step_fatal build_apk before Hfail) as (Hstop & Hcount & Hm).
  split; [|split; [done|split; [done|]]].
  - unfold exit_status. rewrite Hcount. done.
  - intros line Hline Hcopy.
    assert (line ∈ log before ∨ line_step line = "Build APK") as [Hb| Hb].
    { revert Hline. unfold run_step. destruct (build_apk (machine before)) as [[| |e] m'];
        simpl; rewrite ?elem_of_app, ?list_elem_of_singleton; intros H;
        destruct_or?; subst; auto. }
    + apply run_steps_log in Hb as [Hb|Hb]; [by apply elem_of_nil in Hb|].
      rewrite Hcopy in Hb. csimpl in Hb.
      repeat (apply elem_of_cons in Hb as [Hb|Hb]; [done|]).
      by apply elem_of_nil in Hb.
    + by rewrite Hcopy in Hb.
Qed.

End GradleFacts.

(** [setup_and_build_fatal] on a machine without state where Gradle is
    fetched and unpacked, the wrapper is in place, and the build fails; and
    for a pipeline whose first step fails and whose second step counts its
    runs: the second step is run, and one failure is counted. *)
Lemma setup_and_build_fatal_witness :
  (Gradle.setup_and_build (W := unit)
     (λ m, (Pipeline.RetTrue, m)) (λ m, (Pipeline.RetTrue, m))
     (λ m, (Pipeline.RetTrue, m)) (λ m, (Pipeline.RetTrue, m))
     (λ m, (Pipeline.RetFalse, m)) (λ m, (Pipeline.RetTrue, m)) ()).1 = 1 ∧
  Pipeline.run_ordered (E := nat)
    [("Android APK", λ b, (Pipeline.RetFalse, b));
     ("APK Packaging",
      λ b, (Pipeline.RetTrue,
            {| Pipeline.failed_steps := Pipeline.failed_steps b;
               Pipeline.ext := S (Pipeline.ext b) |}))]
    0 {| Pipeline.failed_steps := []; Pipeline.ext := 0%nat |}
  = (1%nat, {| Pipeline.failed_steps := [("Android APK", "Step returned False")];
               Pipeline.ext := 1%nat |}).
Proof.
  destruct (setup_and_build_fatal (W := unit)
    (λ m, (Pipeline.RetTrue, m)) (λ m, (Pipeline.RetTrue, m))
    (λ m, (Pipeline.RetTrue, m)) (λ m, (Pipeline.RetTrue, m))
    (λ m, (Pipeline.RetFalse, m)) (λ m, (Pipeline.RetTrue, m)) ()) as [Hgradle Hpipeline].
  split.
  - simpl in Hgradle. destruct Hgradle as (Hs & _); [done|]. exact Hs.
  - destruct (Hpipeline nat []
                [("APK Packaging",
                  λ b, (Pipeline.RetTrue,
                        {| Pipeline.failed_steps := Pipeline.failed_steps b;
                           Pipeline.ext := S (Pipeline.ext b) |}))]
                ("Android APK", λ b, (Pipeline.RetFalse, b))
                0%nat {| Pipeline.failed_steps := []; Pipeline.ext := 0%nat |})
      as [Hrun _].
    etrans; [exact Hrun|]. reflexivity.
Defined.

(** C3 as stated fails: after the fatal step "Build APK" has failed, the
    run holds no record at all for the step "Copy to Distribution", so none
    with a skipped status. *)
Lemma setup_and_build_records_no_skip :
  let r :=
    Gradle.setup_and_build (W := unit)
      (λ m, (Pipeline.RetTrue, m)) (λ m, (Pipeline.RetTrue, m))
      (λ m, (Pipeline.RetTrue, m)) (λ m, (Pipeline.RetTrue, m))
      (λ m, (Pipeline.RetFalse, m)) (λ m, (Pipeline.RetTrue, m)) () in
  ¬ ∃ line, line ∈ Gradle.log r.2 ∧ Gradle.line_step line = "Copy to Distribution".
Proof.
  intros r (line & Hline & Hname). vm_compute in Hline.
  repeat (apply elem_of_cons in Hline as [->|Hline]; [by vm_compute in Hname|]).
  by apply elem_of_nil in Hline.
Qed.

(** ** Resolving the JDK *)

Section ToolchainFacts.
Import Toolchain.













End ToolchainFacts.

(** * Further properties of the scripts *)

(** ** More on the packager and the repack *)

Section RepackFacts.
Import Zip Release.

Lemma filter_fmap_comm {A B : Type} (P : B → Prop) `{!∀ x, Decision (P x)}
    (f : A → B) (l : list A) :
  filter P (f <$> l) = f <$> filter (λ x, P (f x)) l.
Proof.
  induction l as [|x l IH]; [done|].
  csimpl. rewrite !filter_cons. destruct (decide (P (f x))); csimpl; by rewrite IH.
Qed.

Lemma filter_Forall_id {A : Type} (P : A → Prop) `{!∀ x, Decision (P x)} (l : list A) :
  Forall P l → filter P l = l.
Proof.
  induction 1 as [|x l Hx _ IH]; [done|]. by rewrite filter_cons_True, IH.
Qed.

(** With pairwise distinct names the repack is the image of the sorted
    non-directory members, each keeping its own data. *)
Lemma repack_distinct_names (zin : archive) :
  NoDup (names zin) →
  repack_zip_deterministic zin =
  (λ m, mkMember (repacked_info (info m)) (data m))
    <$> filter (λ m, is_dir (info m) = false) (sort_by_key (filename ∘ info) zin).
Proof.
  intros Hnd. rewrite repack_fmap. unfold kept_infos.
  rewrite (sort_by_key_fmap filename info), filter_fmap_comm, <-list_fmap_compose.
  apply Forall_fmap_ext_1, Forall_forall. intros m Hm. simpl.
  apply list_elem_of_filter in Hm as [_ Hm]. rewrite sort_by_key_Permutation in Hm.
  by rewrite (read_NoDup zin m Hnd Hm).
Qed.

(** X1: the repack leaves an archive written by the packager as it is,
    when the staged files have pairwise distinct relative paths, none of
    which ends with a slash. *)
Theorem repack_package (clock : Z) (rglob : list staged) :
  NoDup (rel_posix <$> filter (λ p, is_file p = true) rglob) →
  Forall (λ p, is_file p = true → ends_with_slash (rel_posix p) = false) rglob →
  repack_zip_deterministic (package clock rglob) = package clock rglob.
Proof.
  intros Hnd Hslash.
  assert (NoDup (names (package clock rglob))) as Hnames.
  { rewrite package_names. unfold package_files. by rewrite sort_by_key_Permutation. }
  rewrite (repack_distinct_names _ Hnames), package_fmap.
  set (mk := λ p, mkMember (deterministic_info p (rel_posix p)) (contents p)).
  rewrite (sort_by_key_fmap (filename ∘ info) mk).
  change (filename ∘ info ∘ mk) with rel_posix.
  unfold package_files at 1. rewrite sort_by_key_idemp. fold (package_files rglob).
  rewrite filter_fmap_comm, <-list_fmap_compose.
  rewrite filter_Forall_id.
  { apply list_fmap_ext. intros _ p _. unfold mk. cbn [compose info data]. f_equal.
    unfold repacked_info.
    by rewrite <-(written_deterministic_info p (rel_posix p)) at 2. }
  apply Forall_forall. intros p Hp. unfold is_dir. simpl.
  unfold package_files in Hp. rewrite sort_by_key_Permutation in Hp.
  apply list_elem_of_filter in Hp as [Hfile Hp].
  rewrite Forall_forall in Hslash. by apply Hslash.
Qed.

(** [repack_package] at a staged tree of two files and a directory. *)
Lemma repack_package_witness :
  repack_zip_deterministic
    (package 1700000000
       [mkStaged "AuraSDK/install.sh" true ["y"%byte] (Some 33188) 1700000003;
        mkStaged "AuraSDK/bin" false [] (Some 16877) 1700000002;
        mkStaged "AuraSDK/bin/aura" true ["x"%byte] (Some 33261) 1700000001])
  = package 1700000000
      [mkStaged "AuraSDK/install.sh" true ["y"%byte] (Some 33188) 1700000003;
       mkStaged "AuraSDK/bin" false [] (Some 16877) 1700000002;
       mkStaged "AuraSDK/bin/aura" true ["x"%byte] (Some 33261) 1700000001].
Proof.
  apply repack_package.
  - apply (bool_decide_unpack _). vm_compute. reflexivity.
  - repeat constructor; vm_compute; congruence.
Defined.

(** X2: two archives holding the same members (name, external attributes,
    data) under pairwise distinct names, in whatever order and with whatever
    dates, are repacked to the same archive. *)
Theorem repack_order_and_dates_irrelevant (zin1 zin2 : archive) :
  NoDup (names zin1) →
  (λ m, (filename (info m), external_attr (info m), data m)) <$> zin1
    ≡ₚ (λ m, (filename (info m), external_attr (info m), data m)) <$> zin2 →
  repack_zip_deterministic zin1 = repack_zip_deterministic zin2.
Proof.
  intros Hnd Hperm.
  set (view := λ m : member, (filename (info m), external_attr (info m), data m)) in *.
  assert (∀ z, names z = (λ v : string * Z * list byte, v.1.1) <$> (view <$> z)) as Hn.
  { intros z. unfold names. by rewrite <-list_fmap_compose. }
  assert (NoDup (names zin2)) as Hnd2.
  { rewrite Hn, <-Hperm, <-Hn. exact Hnd. }
  assert (∀ z, NoDup (names z) →
    repack_zip_deterministic z =
    (λ v : string * Z * list byte,
       mkMember (written_info (mkZipInfo v.1.1 fixed_date_time v.1.2)) v.2)
      <$> filter (λ v, ends_with_slash v.1.1 = false)
            (sort_by_key (λ v, v.1.1) (view <$> z))) as Hview.
  { intros z Hz. rewrite (repack_distinct_names z Hz).
    rewrite (sort_by_key_fmap (λ v : string * Z * list byte, v.1.1) view).
    by rewrite filter_fmap_comm, <-list_fmap_compose. }
  rewrite (Hview zin1 Hnd), (Hview zin2 Hnd2). do 2 f_equal.
  apply sort_by_key_unique; [|done].
  rewrite <-Hn. exact Hnd.
Qed.

(** [repack_order_and_dates_irrelevant] at two archives produced at
    different times with the members in opposite orders. *)
Lemma repack_order_and_dates_irrelevant_witness :
  repack_zip_deterministic
    [mkMember (mkZipInfo "extension/package.json" (2024, 5, 17, 10, 30, 0) 27525120) ["p"%byte];
     mkMember (mkZipInfo "extension.vsixmanifest" (2024, 5, 17, 10, 30, 2) 27525120) ["m"%byte]]
  = repack_zip_deterministic
      [mkMember (mkZipInfo "extension.vsixmanifest" (2025, 1, 2, 8, 0, 0) 27525120) ["m"%byte];
       mkMember (mkZipInfo "extension/package.json" (2025, 1, 2, 8, 0, 2) 27525120) ["p"%byte]].
Proof.
  apply repack_order_and_dates_irrelevant.
  - apply (bool_decide_unpack _). vm_compute. reflexivity.
  - vm_compute. apply Permutation_swap.
Defined.

(** X3: in an archive with pairwise distinct names, every member that is
    not a directory entry is written by the repack with its own name and its
    own data, under the fixed date, and with its own external attributes
    unless they are 0: then with [0o600 << 16] (384 is [0o600]), the
    permissions [zipfile] writes for a header that has none. *)
Theorem repack_keeps_member (zin : archive) (m : member) :
  NoDup (names zin) → m ∈ zin → is_dir (info m) = false →
  {| info := {| filename := filename (info m);
                date_time := (1980, 1, 1, 0, 0, 0);
                external_attr :=
                  if external_attr (info m) =? 0 then Z.shiftl 384 16
                  else external_attr (info m) |};
     data := data m |} ∈ repack_zip_deterministic zin.
Proof.
  intros Hnd Hm Hdir. rewrite (repack_distinct_names zin Hnd).
  apply (list_elem_of_fmap_2 (λ m, mkMember (repacked_info (info m)) (data m))).
  apply list_elem_of_filter. split; [done|]. by rewrite sort_by_key_Permutation.
Qed.

(** [repack_keeps_member] at a two-member archive with a directory
    entry, for the member without external attributes. *)
Lemma repack_keeps_member_witness :
  mkMember (mkZipInfo "b.txt" (1980, 1, 1, 0, 0, 0) 25165824) ["b"%byte]
  ∈ repack_zip_deterministic
      [mkMember (mkZipInfo "b.txt" (2024, 5, 17, 10, 30, 0) 0) ["b"%byte];
       mkMember (mkZipInfo "d/" (2024, 5, 17, 10, 30, 2) 1107099664) [];
       mkMember (mkZipInfo "a.txt" (2024, 5, 17, 10, 30, 4) 27525120) ["a"%byte]].
Proof.
  apply (repack_keeps_member _
    (mkMember (mkZipInfo "b.txt" (2024, 5, 17, 10, 30, 0) 0) ["b"%byte])).
  - apply (bool_decide_unpack _). vm_compute. reflexivity.
  - by left.
  - reflexivity.
Defined.

End RepackFacts.

(** ** The helpers around the archives *)

Section ArtifactFacts.
Import Artifacts.

Lemma rename_aside_Some (rename_ok : nat → bool) (a n i : nat) :
  rename_aside rename_ok (seq a n) = Some i ↔
  (a ≤ i < a + n)%nat ∧ rename_ok i = true ∧
  ∀ j, (a ≤ j < i)%nat → rename_ok j = false.
Proof.
  revert a. induction n as [|n IH]; intros a; simpl.
  { split; [done|]. intros [? _]. lia. }
  destruct (rename_ok a) eqn:Ha.
  - split.
    + intros [= <-]. split_and!; [lia..|done|]. intros j ?. lia.
    + intros (Hi & Hok & Hbefore). f_equal.
      destruct (decide (a = i)) as [|Hne]; [done|].
      rewrite (Hbefore a) in Ha by lia. done.
  - rewrite IH. split.
    + intros (Hi & Hok & Hbefore). split_and!; [lia..|done|].
      intros j Hj. destruct (decide (j = a)) as [->|]; [done|]. apply Hbefore. lia.
    + intros (Hi & Hok & Hbefore).
      assert (a ≠ i) by (intros ->; congruence).
      split_and!; [lia..|done|]. intros j Hj. apply Hbefore. lia.
Qed.

Lemma rename_aside_None (rename_ok : nat → bool) (a n : nat) :
  rename_aside rename_ok (seq a n) = None ↔
  ∀ j, (a ≤ j < a + n)%nat → rename_ok j = false.
Proof.
  revert a. induction n as [|n IH]; intros a; simpl.
  { split; [|done]. intros _ j ?. lia. }
  destruct (rename_ok a) eqn:Ha.
  - split; [done|]. intros Hall. rewrite (Hall a) in Ha by lia. done.
  - rewrite IH. split.
    + intros Hall j Hj. destruct (decide (j = a)) as [->|]; [done|]. apply Hall. lia.
    + intros Hall j Hj. apply Hall. lia.
Qed.

(** X4: for an existing artifact whose removal is refused with
    [PermissionError], [safe_replace_existing] renames it aside under the
    smallest index from 1 to 999 for which the rename succeeds, and raises
    [SystemExit] exactly when all 999 renames fail; a removal that succeeds
    ends the call at once, and any other exception of the removal is not
    caught. *)
Theorem safe_replace_existing_locked (rename_ok : nat → bool) :
  (∀ i, safe_replace_existing true UnlinkPermissionError rename_ok = RenamedAside i ↔
        (1 ≤ i ≤ 999)%nat ∧ rename_ok i = true ∧
        ∀ j, (1 ≤ j < i)%nat → rename_ok j = false) ∧
  (safe_replace_existing true UnlinkPermissionError rename_ok = ReplaceSystemExit ↔
   ∀ j, (1 ≤ j ≤ 999)%nat → rename_ok j = false) ∧
  safe_replace_existing true UnlinkOk rename_ok = Removed ∧
  (∀ e, safe_replace_existing true (UnlinkRaises e) rename_ok = Propagated e) ∧
  (∀ unlink, safe_replace_existing false unlink rename_ok = Absent).
Proof.
  unfold safe_replace_existing. simpl negb. cbv iota.
  split_and!; [| |done..].
  - intros i. destruct (rename_aside rename_ok (seq 1 999)) as [k|] eqn:Hr.
    + apply rename_aside_Some in Hr. split.
      * intros [= <-]. destruct Hr as (? & ? & ?). split_and!; [lia..|done|done].
      * intros (Hi & Hok & Hbefore). f_equal. destruct Hr as (Hk & Hkok & Hkbefore).
        destruct (decide (k < i)%nat); [rewrite Hbefore in Hkok by lia; done|].
        destruct (decide (i < k)%nat); [rewrite Hkbefore in Hok by lia; done|]. lia.
    + split; [done|]. intros (Hi & Hok & _).
      rewrite rename_aside_None in Hr. rewrite Hr in Hok by lia. done.
  - destruct (rename_aside rename_ok (seq 1 999)) as [k|] eqn:Hr.
    + split; [done|]. intros Hall. apply rename_aside_Some in Hr as (? & Hok & _).
      rewrite Hall in Hok by lia. done.
    + split; [|done]. intros _ j Hj. rewrite rename_aside_None in Hr. apply Hr. lia.
Qed.

(** [safe_replace_existing_locked] where the names .old1 and .old2 are
    taken and .old3 is free. *)
Lemma safe_replace_existing_locked_witness :
  safe_replace_existing true UnlinkPermissionError (λ i, bool_decide (3 ≤ i)%nat)
  = RenamedAside 3.
Proof.
  apply (safe_replace_existing_locked (λ i, bool_decide (3 ≤ i)%nat)).
  split_and!; [lia..|done|].
  intros j Hj. apply bool_decide_eq_false. lia.
Defined.

(** *** The digest *)

Lemma chunk_size_pos : (0 < chunk_size)%nat.
Proof. unfold chunk_size. lia. Qed.

Lemma take_chunk_nil (rest : list byte) : take chunk_size rest = [] ↔ rest = [].
Proof.
  pose proof chunk_size_pos as Hpos. generalize dependent chunk_size. intros n Hn.
  destruct rest as [|b rest]; [by rewrite take_nil|].
  destruct n as [|n]; [lia|]. done.
Qed.

Section DigestFacts.
Context {H : Type} (h_new : H) (h_update : H → list byte → H)
        (h_hexdigest : H → string).
(** [hashlib]: feeding two pieces one after the other is feeding their
    concatenation. *)
Hypothesis h_update_app : ∀ h a b, h_update (h_update h a) b = h_update h (a ++ b).

Lemma sha256_loop_feeds (fuel : nat) (rest : list byte) (h : H) :
  (length rest < fuel)%nat →
  sha256_loop h_update fuel rest h
  = Some (match rest with [] => h | _ => h_update h rest end).
Proof.
  revert rest h. induction fuel as [|fuel IH]; intros rest h Hlen; [lia|].
  change (sha256_loop h_update (S fuel) rest h) with
    (match take chunk_size rest with
     | [] => Some h
     | b :: chunk =>
         sha256_loop h_update fuel (drop chunk_size rest) (h_update h (b :: chunk))
     end).
  pose proof chunk_size_pos as Hpos. revert Hpos. generalize chunk_size. intros n Hpos.
  destruct rest as [|r rest]; [by rewrite take_nil|].
  destruct n as [|n]; [lia|].
  rewrite firstn_cons, skipn_cons.
  assert (length (drop n rest) < fuel)%nat as Hdrop.
  { rewrite length_drop. rewrite length_cons in Hlen. lia. }
  rewrite (IH _ _ Hdrop). f_equal.
  destruct (drop n rest) as [|d ds] eqn:Hd.
  - rewrite <-(take_drop n rest) at 2. by rewrite Hd, app_nil_r.
  - rewrite h_update_app, <-Hd. by rewrite <-app_comm_cons, take_drop.
Qed.

(** X5: given enough iterations (more than the file has bytes),
    [sha256_file] ends and returns the digest of the whole content: the
    pieces of one mebibyte it feeds add up to the file, in order.  An empty
    file gives the digest of the fresh hash object. *)
Theorem sha256_file_whole (fuel : nat) (content : list byte) :
  (length content < fuel)%nat →
  sha256_file h_new h_update h_hexdigest fuel content
  = Some (h_hexdigest (match content with [] => h_new | _ => h_update h_new content end)).
Proof.
  intros Hlen. unfold sha256_file. by rewrite sha256_loop_feeds.
Qed.
End DigestFacts.

(** [sha256_file_whole] with a hash object that keeps what it is fed. *)
Lemma sha256_file_whole_witness :
  sha256_file (H := list byte) [] (λ h chunk, h ++ chunk) (λ _, "") 3 ["a"%byte; "b"%byte]
  = Some "".
Proof.
  apply (sha256_file_whole (H := list byte) [] (λ h chunk, h ++ chunk) (λ _, "")).
  - intros h a b. by rewrite app_assoc.
  - simpl. lia.
Defined.

(** *** The newest file *)

Section NewestFacts.
Context {P : Type} (st_mtime : P → Qc).

Lemma newest_fold (rest seen : list P) (best : P) :
  (∃ l1 l2, seen = l1 ++ best :: l2 ∧
            Forall (λ q, st_mtime q < st_mtime best)%Qc l1 ∧
            Forall (λ q, st_mtime q ≤ st_mtime best)%Qc l2) →
  let r := foldl (λ best q, if decide (st_mtime best < st_mtime q)%Qc then q else best)
             best rest in
  ∃ l1 l2, seen ++ rest = l1 ++ r :: l2 ∧
           Forall (λ q, st_mtime q < st_mtime r)%Qc l1 ∧
           Forall (λ q, st_mtime q ≤ st_mtime r)%Qc l2.
Proof.
  revert seen best. induction rest as [|q rest IH]; intros seen best (l1 & l2 & -> & H1 & H2).
  { simpl. rewrite app_nil_r. eauto. }
  simpl. replace ((l1 ++ best :: l2) ++ q :: rest)
    with (((l1 ++ best :: l2) ++ [q]) ++ rest) by (by rewrite <-!app_assoc).
  apply IH. destruct (decide (st_mtime best < st_mtime q)%Qc) as [Hlt|Hge].
  - exists (l1 ++ best :: l2), []. split_and!; [done| |done].
    apply Forall_app. split; [|constructor; [done|]].
    + eapply Forall_impl; [exact H1|]. intros x Hx. simpl in Hx. by etrans.
    + eapply Forall_impl; [exact H2|]. intros x Hx. simpl in Hx.
      by eapply Qcle_lt_trans.
  - exists l1, (l2 ++ [q]). split_and!; [by rewrite <-app_assoc|done|].
    apply Forall_app. split; [done|]. constructor; [|done].
    by apply Qcnot_lt_le.
Qed.

(** X6: [newest_file] returns [None] for the empty list only; otherwise it
    returns a path of the list whose modification time is the largest, and
    among several such the first one. *)
Theorem newest_file_first_max (paths : list P) :
  match newest_file st_mtime paths with
  | None => paths = []
  | Some p =>
      ∃ l1 l2, paths = l1 ++ p :: l2 ∧
               Forall (λ q, st_mtime q < st_mtime p)%Qc l1 ∧
               Forall (λ q, st_mtime q ≤ st_mtime p)%Qc l2
  end.
Proof.
  destruct paths as [|p rest]; [done|]. unfold newest_file.
  apply (newest_fold rest [p] p). exists [], []. by split_and!.
Qed.
End NewestFacts.

(** *** The candidate release directories *)

Section ReleaseDirFacts.
Context {path : Type} `{EqDecision path}.
Context (Path : string → path) (child : path → string → path)
        (join : path → path → path) (is_absolute : path → bool).

Lemma dedupe_spec (candidates seen out : list path) :
  (∀ x, x ∈ seen ↔ x ∈ out) → NoDup out →
  ∃ kept, dedupe candidates seen out = out ++ kept ∧
          NoDup (out ++ kept) ∧
          kept `sublist_of` candidates ∧
          (∀ x, x ∈ out ++ kept ↔ x ∈ out ∨ x ∈ candidates).
Proof.
  revert seen out. induction candidates as [|d rest IH]; intros seen out Hseen Hnd; simpl.
  { exists []. rewrite app_nil_r. split_and!; [done..|]. intros x.
    rewrite elem_of_nil. tauto. }
  destruct (decide (d ∈ seen)) as [Hd|Hd].
  - destruct (IH seen out Hseen Hnd) as (kept & -> & Hnd' & Hsub & Hin).
    exists kept. split_and!; [done..|by apply sublist_cons|].
    intros x. rewrite Hin, elem_of_cons. apply Hseen in Hd.
    split; [tauto|]. intros [?|[->|?]]; auto.
  - destruct (IH (d :: seen) (out ++ [d])) as (kept & -> & Hnd' & Hsub & Hin).
    { intros x. rewrite elem_of_cons, elem_of_app, list_elem_of_singleton, Hseen.
      tauto. }
    { apply NoDup_app. split_and!; [done| |apply NoDup_singleton].
      intros x Hx ->%list_elem_of_singleton. by apply Hd, Hseen. }
    exists (d :: kept). rewrite <-app_assoc in *. simpl in *.
    split_and!; [done..|by apply sublist_skip|].
    intros x. rewrite Hin, elem_of_app, !elem_of_cons, elem_of_nil. tauto.
Qed.

Lemma dedupe_head (d : path) (rest : list path) :
  ∃ kept, dedupe (d :: rest) [] [] = d :: kept.
Proof.
  simpl. destruct (decide (d ∈ [])) as [Hd|_]; [by apply elem_of_nil in Hd|].
  destruct (dedupe_spec rest [d] [d]) as (kept & -> & _); [done|apply NoDup_singleton|].
  by exists kept.
Qed.

(** X7: the list of candidate release directories holds no directory
    twice, keeps the candidates in their order of first appearance, always
    holds the two default directories, and, when [CARGO_TARGET_DIR] is set to
    a non-empty value, starts with the directory derived from it. *)
Theorem sentinel_candidate_release_dirs_spec (sentinel_app_dir : path)
    (env : gmap string string) :
  let dirs := sentinel_candidate_release_dirs Path child join is_absolute
                sentinel_app_dir env in
  let src_tauri := child sentinel_app_dir "src-tauri" in
  let derived v :=
    child (if is_absolute (Path v) then Path v else join src_tauri (Path v)) "release" in
  NoDup dirs ∧
  (∀ d, d ∈ default_release_dirs child sentinel_app_dir → d ∈ dirs) ∧
  (∀ v, env !! "CARGO_TARGET_DIR" = Some v → v ≠ "" →
        head dirs = Some (derived v) ∧
        dirs `sublist_of` derived v :: default_release_dirs child sentinel_app_dir) ∧
  (env !! "CARGO_TARGET_DIR" = None ∨ env !! "CARGO_TARGET_DIR" = Some "" →
   dirs `sublist_of` default_release_dirs child sentinel_app_dir).
Proof.
  intros dirs src_tauri derived. subst dirs. unfold sentinel_candidate_release_dirs.
  cbv zeta. fold src_tauri.
  set (defaults := default_release_dirs child sentinel_app_dir).
  set (candidates := match env !! "CARGO_TARGET_DIR" with
                     | Some v => _ | None => _ end).
  assert (candidates = defaults ∧
            (env !! "CARGO_TARGET_DIR" = None ∨ env !! "CARGO_TARGET_DIR" = Some "") ∨
          ∃ v, env !! "CARGO_TARGET_DIR" = Some v ∧ v ≠ "" ∧
               candidates = derived v :: defaults) as Hcand.
  { subst candidates. destruct (env !! "CARGO_TARGET_DIR") as [v|]; [|by left; auto].
    destruct (String.eqb_spec v "") as [->|Hv]; [by left; auto|].
    right. exists v. split_and!; [done..|]. unfold derived.
    by destruct (is_absolute (Path v)). }
  clearbody candidates.
  destruct (dedupe_spec candidates [] []) as (kept & Hk & Hnd & Hsub & Hin);
    [done|constructor|].
  simpl in Hk, Hnd, Hin. rewrite Hk.
  assert (∀ x, x ∈ kept ↔ x ∈ candidates) as Hin'.
  { intros x. rewrite Hin. split; [|by right]. intros [Hx|Hx]; [|done].
    by apply elem_of_nil in Hx. }
  split_and!; [done| | |].
  - intros d Hd. apply Hin'. destruct Hcand as [[-> _]|(v & _ & _ & ->)]; [done|].
    by right.
  - intros v Hv Hne. destruct Hcand as [[_ [Hc|Hc]]|(v' & Hv' & _ & ->)];
      [congruence..|].
    assert (v' = v) as -> by congruence. split; [|done].
    destruct (dedupe_head (derived v) defaults) as (kept' & Hk').
    rewrite Hk in Hk'. by rewrite Hk'.
  - intros Hnone. destruct Hcand as [[-> _]|(v & Hv & Hne & _)]; [done|].
    destruct Hnone; congruence.
Qed.

End ReleaseDirFacts.

(** [sentinel_candidate_release_dirs_spec] with paths as lists of
    components and [CARGO_TARGET_DIR=target]: the derived directory is the
    first default one and appears once. *)
Lemma sentinel_candidate_release_dirs_witness :
  sentinel_candidate_release_dirs (path := list string)
    (λ s, [s]) (λ p name, p ++ [name]) (λ p q, p ++ q) (λ _, false)
    ["editors"; "sentinel-app"] {[ "CARGO_TARGET_DIR" := "target" ]}
  = [["editors"; "sentinel-app"; "src-tauri"; "target"; "release"];
     ["editors"; "sentinel-app"; "src-tauri"; "target-lsp-test"; "release"]] ∧
  head (sentinel_candidate_release_dirs (path := list string)
          (λ s, [s]) (λ p name, p ++ [name]) (λ p q, p ++ q) (λ _, false)
          ["editors"; "sentinel-app"] {[ "CARGO_TARGET_DIR" := "target" ]})
  = Some ["editors"; "sentinel-app"; "src-tauri"; "target"; "release"].
Proof.
  split; [by vm_compute|].
  pose proof (sentinel_candidate_release_dirs_spec (path := list string)
                (λ s, [s]) (λ p name, p ++ [name]) (λ p q, p ++ q) (λ _, false)
                ["editors"; "sentinel-app"] {[ "CARGO_TARGET_DIR" := "target" ]})
    as Hspec.
  cbv zeta in Hspec. destruct Hspec as (_ & _ & Hv & _).
  destruct (Hv "target") as [Hhead _]; [done..|]. exact Hhead.
Defined.

End ArtifactFacts.

(** ** Step keys *)

Section StepKeyFacts.
Import StepKeys.

Lemma string_app_cons (c : ascii) (a b : string) :
  String c a +:+ b = String c (a +:+ b).
Proof. done. Qed.

Lemma split_comma_nonempty (s : string) : split_comma s ≠ [].
Proof.
  induction s as [|c s IH]; simpl; [done|].
  destruct (Ascii.eqb c ","); [done|]. by destruct (split_comma s).
Qed.

Lemma split_comma_app (a b : string) :
  split_comma (a +:+ "," +:+ b) = split_comma a ++ split_comma b.
Proof.
  induction a as [|c a IH].
  - done.
  - rewrite string_app_cons. simpl. rewrite IH.
    destruct (Ascii.eqb c ","); [done|].
    pose proof (split_comma_nonempty a). by destruct (split_comma a).
Qed.

Lemma split_comma_single (k : string) :
  ","%char ∉ Stdlib.Strings.String.list_ascii_of_string k → split_comma k = [k].
Proof.
  induction k as [|c k IH]; simpl; [done|].
  intros Hc. destruct (Ascii.eqb_spec c ",") as [->|_].
  - exfalso. apply Hc. by left.
  - rewrite IH; [done|]. intros Hk. apply Hc. by right.
Qed.

Lemma parse_step_keys_app (x y : string) :
  parse_step_keys (x +:+ "," +:+ y) = parse_step_keys x ++ parse_step_keys y.
Proof.
  unfold parse_step_keys. by rewrite split_comma_app, fmap_app, filter_app.
Qed.

(** X8: the keys of a selection are read item by item: parsing two lists
    joined by a comma gives the keys of the first followed by the keys of the
    second.  In particular an empty item contributes nothing. *)
Theorem parse_step_keys_comma (a b : string) :
  parse_step_keys (a +:+ "," +:+ b) = parse_step_keys a ++ parse_step_keys b ∧
  parse_step_keys (a +:+ "," +:+ "," +:+ b) = parse_step_keys (a +:+ "," +:+ b).
Proof.
  split; [apply parse_step_keys_app|].
  rewrite (parse_step_keys_app a ("," +:+ b)), (parse_step_keys_app a b). f_equal.
Qed.

(** X9: a list of keys, none of which is empty, holds a comma or gains
    anything from [strip], is read back as it is from its comma-joined
    form. *)
Theorem parse_step_keys_join (keys : list string) :
  Forall (λ k, k ≠ "" ∧ strip k = k ∧ ","%char ∉ Stdlib.Strings.String.list_ascii_of_string k) keys →
  parse_step_keys (join_comma keys) = keys.
Proof.
  assert (∀ k, k ≠ "" → strip k = k → ","%char ∉ Stdlib.Strings.String.list_ascii_of_string k →
               parse_step_keys k = [k]) as Hone.
  { intros k Hne Hs Hc. unfold parse_step_keys. rewrite split_comma_single by done.
    csimpl. rewrite Hs. by rewrite filter_cons_True. }
  induction 1 as [|k keys (Hne & Hs & Hc) Hkeys IH]; [done|].
  destruct keys as [|k' keys]; [by apply Hone|].
  change (join_comma (k :: k' :: keys)) with (k +:+ "," +:+ join_comma (k' :: keys)).
  rewrite parse_step_keys_app, IH, Hone by done. done.
Qed.

(** [parse_step_keys_join] at a selection of three keys. *)
Lemma parse_step_keys_join_witness :
  parse_step_keys (join_comma ["core"; "apk-package"; "manifest"])
  = ["core"; "apk-package"; "manifest"].
Proof.
  apply parse_step_keys_join.
  repeat constructor; try done; vm_compute;
    intros H; repeat (apply elem_of_cons in H as [H|H]; [done|]);
    by apply elem_of_nil in H.
Defined.

End StepKeyFacts.

(** ** More on the step pipeline *)

Section PipelineMore.
Import Pipeline Commands Observe.
Context {E : Type}.
Context (build_aura_core build_sentinel_ide setup_android_toolchain
         build_android_apk copy_android_apk_to_dist verify_binaries
         create_distribution generate_manifest collect_markdown_docs
         rearrange_roadmap_summary reorg_repo_root : @action E).

Local Abbreviation run := (run_selected_steps build_aura_core build_sentinel_ide
  setup_android_toolchain build_android_apk copy_android_apk_to_dist verify_binaries
  create_distribution generate_manifest collect_markdown_docs
  rearrange_roadmap_summary reorg_repo_root).
Local Abbreviation lookup := (step_lookup build_aura_core build_sentinel_ide
  setup_android_toolchain build_android_apk copy_android_apk_to_dist verify_binaries
  create_distribution generate_manifest collect_markdown_docs
  rearrange_roadmap_summary reorg_repo_root).
Local Abbreviation resolve := (resolve_steps build_aura_core build_sentinel_ide
  setup_android_toolchain build_android_apk copy_android_apk_to_dist verify_binaries
  create_distribution generate_manifest collect_markdown_docs
  rearrange_roadmap_summary reorg_repo_root).

(** X10: resolving a selection keeps the known keys, in the order and
    with the repetitions of the selection, and records one failure ("args",
    "Unknown step: key") per unknown key, in order; an unknown key does not
    stop the keys after it from being resolved. *)
Theorem resolve_steps_spec (selected : list string) (ordered : list (string * action))
    (b : builder) :
  (resolve selected ordered b).1 = ordered ++ omap lookup selected ∧
  failed_steps (resolve selected ordered b).2 =
    failed_steps b ++
    omap (λ key, match lookup key with
                 | Some _ => None
                 | None => Some ("args", "Unknown step: " +:+ key)
                 end) selected ∧
  ext (resolve selected ordered b).2 = ext b.
Proof.
  revert ordered b. induction selected as [|key selected IH]; intros ordered b; csimpl.
  { by rewrite !app_nil_r. }
  destruct (lookup key) as [step|]; csimpl.
  - destruct (IH (ordered ++ [step]) b) as (-> & -> & ->).
    by rewrite <-app_assoc.
  - destruct (IH ordered (_step_failed "args" ("Unknown step: " +:+ key) b))
      as (-> & -> & ->).
    simpl. by rewrite <-app_assoc.
Qed.




(** X12: every bundle of the menu other than the custom one holds known
    keys only: resolving it records no failure and yields one step per
    key. *)
Theorem interactive_select_known (choice_line raw_line : string) (b : builder) :
  StepKeys.strip choice_line ≠ "9" →
  (resolve (StepKeys._interactive_select choice_line raw_line) [] b).2 = b ∧
  length (resolve (StepKeys._interactive_select choice_line raw_line) [] b).1
  = length (StepKeys._interactive_select choice_line raw_line).
Proof.
  intros Hcustom. unfold StepKeys._interactive_select. cbv zeta.
  repeat (match goal with
          | |- context [String.eqb ?x ?y] =>
              destruct (String.eqb_spec x y) as [?|?]; [try done; by destruct b|]
          end).
  by destruct b.
Qed.

End PipelineMore.

(** [interactive_select_known] at the first menu entry. *)
Lemma interactive_select_known_witness :
  (Pipeline.resolve_steps (E := unit)
     (λ b, (Pipeline.RetTrue, b)) (λ b, (Pipeline.RetTrue, b))
     (λ b, (Pipeline.RetTrue, b)) (λ b, (Pipeline.RetTrue, b))
     (λ b, (Pipeline.RetTrue, b)) (λ b, (Pipeline.RetTrue, b))
     (λ b, (Pipeline.RetTrue, b)) (λ b, (Pipeline.RetTrue, b))
     (λ b, (Pipeline.RetTrue, b)) (λ b, (Pipeline.RetTrue, b))
     (λ b, (Pipeline.RetTrue, b))
     (StepKeys._interactive_select " 1 " "") []
     (Pipeline.mkBuilder [] ())).2
  = Pipeline.mkBuilder [] ().
Proof.
  apply (interactive_select_known (E := unit)). by vm_compute.
Defined.

(** ** Steps that run commands *)

Section CommandFacts.
Import Pipeline Commands.

(** X13: a failing [cargo build] is reported twice.  When the selection is
    ["core"] and the command does not exit with 0, the exit status is 1 and
    the list of failed steps gains two entries: one written by [run_command]
    under the command's description, with the message of the failure, and one
    written by the pipeline under the step's name. *)
Theorem core_failure_reported_twice
    (build_sentinel_ide setup_android_toolchain build_android_apk
     copy_android_apk_to_dist verify_binaries create_distribution generate_manifest
     collect_markdown_docs rearrange_roadmap_summary reorg_repo_root : @action machine)
    (b : @builder machine) (msg : string) :
  failure_message 300 (respond (ext b) (launched (ext b)) "cargo build --release")
    = Some msg →
  run_selected_steps build_aura_core build_sentinel_ide setup_android_toolchain
    build_android_apk copy_android_apk_to_dist verify_binaries create_distribution
    generate_manifest collect_markdown_docs rearrange_roadmap_summary reorg_repo_root
    ["core"] b
  = (1, {| failed_steps :=
             failed_steps b ++
             [("Compile Aura compiler, LSP, and package manager", msg);
              ("Aura Core", "Step returned False")];
           ext := {| respond := respond (ext b);
                     launched := launched (ext b) ++ ["cargo build --release"] |} |}).
Proof.
  intros Hfail. unfold run_selected_steps. simpl.
  unfold build_aura_core, run_command.
  change (display_cmd (inr ["cargo"; "build"; "--release"]))
    with "cargo build --release".
  cbv zeta. rewrite Hfail. simpl. unfold _step_failed. simpl.
  by rewrite <-app_assoc.
Qed.

(** [core_failure_reported_twice] where [cargo] exits with 101 and writes
    to its error stream. *)
Lemma core_failure_reported_twice_witness :
  (run_selected_steps build_aura_core
     (λ b, (RetTrue, b)) (λ b, (RetTrue, b)) (λ b, (RetTrue, b)) (λ b, (RetTrue, b))
     (λ b, (RetTrue, b)) (λ b, (RetTrue, b)) (λ b, (RetTrue, b)) (λ b, (RetTrue, b))
     (λ b, (RetTrue, b)) (λ b, (RetTrue, b))
     ["core"]
     {| failed_steps := [];
        ext := {| respond := λ _ _, Completed 101 "" "error: could not compile";
                  launched := [] |} |}).1 = 1.
Proof.
  rewrite (core_failure_reported_twice _ _ _ _ _ _ _ _ _ _ _ "error: could not compile");
    reflexivity.
Defined.

(** X14: [build_sentinel_ide] launches [npm run build] only after
    [npm install] has exited with 0.  When the installation fails the step
    returns false with that single command launched and its failure
    recorded; otherwise both commands are launched, in this order, and the
    step returns true exactly when the build, run after the installation,
    exits with 0. *)
Theorem build_sentinel_ide_install_first (b : @builder machine) :
  match failure_message 300 (respond (ext b) (launched (ext b)) "npm install") with
  | Some msg =>
      build_sentinel_ide b =
      (RetFalse,
       {| failed_steps := failed_steps b ++ [("Install npm packages", msg)];
          ext := {| respond := respond (ext b);
                    launched := launched (ext b) ++ ["npm install"] |} |})
  | None =>
      launched (ext (build_sentinel_ide b).2)
        = launched (ext b) ++ ["npm install"; "npm run build"] ∧
      ((build_sentinel_ide b).1 = RetTrue ↔
       failure_message 300
         (respond (ext b) (launched (ext b) ++ ["npm install"]) "npm run build") = None)
  end.
Proof.
  unfold build_sentinel_ide, run_command.
  change (display_cmd (inr ["npm"; "install"])) with "npm install".
  change (display_cmd (inr ["npm"; "run"; "build"])) with "npm run build".
  cbv zeta.
  destruct (failure_message 300 (respond (ext b) (launched (ext b)) "npm install"))
    as [msg|]; simpl.
  { done. }
  destruct (failure_message 300
              (respond (ext b) (launched (ext b) ++ ["npm install"]) "npm run build"))
    as [msg|]; simpl.
  - split; [by rewrite <-app_assoc|]. split; done.
  - split; [by rewrite <-app_assoc|]. split; done.
Qed.

Section AndroidEnvFacts.
Import Builder.
Context {path : Type} (path_str : path → string) (child : path → string → path)
        (pathsep : string).

(** The child environment of [run_command], in a store where every
    reference in use is below the next free one. *)
Lemma run_command_env_child (h : store) (environ : nat) (env : gmap string pyval) :
  (∀ r, is_Some (objs h !! r) → (r < next_ref h)%nat) →
  is_Some (objs h !! environ) →
  deref (run_command_env h environ (Some env)).1 (run_command_env h environ (Some env)).2
    = stringify_overrides env ∪ deref h environ ∧
  deref (run_command_env h environ (Some env)).1 environ = deref h environ.
Proof.
  intros Hwf Henv.
  assert (environ ≠ next_ref h) as Hne by (apply Hwf in Henv; lia).
  unfold run_command_env, dict_copy.
  destruct (bool_decide_reflect (env = ∅)) as [->|He]; simpl.
  - unfold deref. simpl. rewrite lookup_insert_eq, lookup_insert_ne by done.
    split; [|done].
    assert (stringify_overrides ∅ = ∅) as ->
      by (apply map_eq; intros k; by rewrite lookup_stringify_overrides, !lookup_empty).
    by rewrite (left_id ∅ _).
  - unfold deref, dict_update. simpl.
    rewrite lookup_alter_eq, lookup_insert_eq, lookup_alter_ne, lookup_insert_ne by done.
    done.
Qed.

(** The four entries [_android_env] may hold. *)
Lemma android_env_lookup (java_home android_sdk_root : option path)
    (ambient : gmap string string) :
  let env := _android_env path_str child pathsep java_home android_sdk_root ambient in
  env !! "JAVA_HOME" = (λ jh, PyStr (path_str jh)) <$> java_home ∧
  env !! "PATH" =
    (λ jh, PyStr (path_str (child jh "bin") +:+ pathsep
                  +:+ default "" (ambient !! "PATH"))) <$> java_home ∧
  env !! "ANDROID_SDK_ROOT" = (λ sdk, PyStr (path_str sdk)) <$> android_sdk_root ∧
  env !! "ANDROID_HOME" = (λ sdk, PyStr (path_str sdk)) <$> android_sdk_root ∧
  (∀ k, k ∉ ["JAVA_HOME"; "PATH"; "ANDROID_SDK_ROOT"; "ANDROID_HOME"] → env !! k = None).
Proof.
  intros env. subst env. unfold _android_env.
  destruct java_home as [jh|], android_sdk_root as [sdk|]; cbv beta iota zeta;
    split_and!;
    try (intros k Hk;
         assert (k ≠ "JAVA_HOME" ∧ k ≠ "PATH" ∧ k ≠ "ANDROID_SDK_ROOT" ∧ k ≠ "ANDROID_HOME")
           as (? & ? & ? & ?)
           by (split_and!; intros ->; apply Hk; repeat constructor));
    repeat first
      [ rewrite lookup_insert_eq
      | rewrite lookup_insert_ne by done
      | rewrite lookup_empty ];
    reflexivity.
Qed.

(** X15: a command run with [env=self._android_env()] sees the resolved
    JDK and SDK: [JAVA_HOME] is the builder's [java_home], [PATH] starts with
    its [bin] directory followed by the ambient [PATH], and
    [ANDROID_SDK_ROOT] and [ANDROID_HOME] are both the SDK root.  Every other
    variable, and each of these four when the builder holds no such path, is
    the ambient one; the ambient environment is left as it was. *)
Theorem android_env_child (h : store) (environ : nat)
    (java_home android_sdk_root : option path) :
  (∀ r, is_Some (objs h !! r) → (r < next_ref h)%nat) →
  is_Some (objs h !! environ) →
  let ambient := deref h environ in
  let env := _android_env path_str child pathsep java_home android_sdk_root ambient in
  let r := run_command_env h environ (Some env) in
  let child_env := deref r.1 r.2 in
  match java_home with
  | Some jh =>
      child_env !! "JAVA_HOME" = Some (path_str jh) ∧
      child_env !! "PATH" =
        Some (path_str (child jh "bin") +:+ pathsep +:+ default "" (ambient !! "PATH"))
  | None =>
      child_env !! "JAVA_HOME" = ambient !! "JAVA_HOME" ∧
      child_env !! "PATH" = ambient !! "PATH"
  end ∧
  match android_sdk_root with
  | Some sdk =>
      child_env !! "ANDROID_SDK_ROOT" = Some (path_str sdk) ∧
      child_env !! "ANDROID_HOME" = Some (path_str sdk)
  | None =>
      child_env !! "ANDROID_SDK_ROOT" = ambient !! "ANDROID_SDK_ROOT" ∧
      child_env !! "ANDROID_HOME" = ambient !! "ANDROID_HOME"
  end ∧
  (∀ k, k ∉ ["JAVA_HOME"; "PATH"; "ANDROID_SDK_ROOT"; "ANDROID_HOME"] →
        child_env !! k = ambient !! k) ∧
  deref r.1 environ = ambient.
Proof.
  intros Hwf Henv ambient env r child_env.
  destruct (run_command_env_child h environ env Hwf Henv) as [Hchild Hamb].
  destruct (android_env_lookup java_home android_sdk_root ambient)
    as (Hjava & Hpath & Hsdk & Hhome & Hother).
  fold env in Hjava, Hpath, Hsdk, Hhome, Hother.
  assert (∀ k, child_env !! k =
               match stringify_overrides env !! k with
               | Some v => Some v
               | None => ambient !! k
               end) as Hk.
  { intros k. subst child_env r. rewrite Hchild, lookup_union.
    destruct (stringify_overrides env !! k); simpl;
      by rewrite ?union_Some_l, ?(left_id None _). }
  split_and!; [| | |done].
  - rewrite !Hk, !lookup_stringify_overrides, Hjava, Hpath. by destruct java_home.
  - rewrite !Hk, !lookup_stringify_overrides, Hsdk, Hhome. by destruct android_sdk_root.
  - intros k Hnot. by rewrite Hk, lookup_stringify_overrides, Hother.
Qed.
End AndroidEnvFacts.

End CommandFacts.

(** [android_env_child] on a store holding [os.environ] only, with a JDK
    resolved under [.tools/] and no SDK. *)
Lemma android_env_child_witness :
  let h := {| Builder.objs := {[ 0%nat := {[ "PATH" := "/usr/bin" ]} ]};
              Builder.next_ref := 1 |} in
  let env := Commands._android_env (path := string) id (λ p name, p +:+ "/" +:+ name)
               ":" (Some ".tools/jdk-17") None (Builder.deref h 0%nat) in
  let r := Builder.run_command_env h 0%nat (Some env) in
  Builder.deref r.1 r.2 !! "JAVA_HOME" = Some ".tools/jdk-17" ∧
  Builder.deref r.1 r.2 !! "PATH" = Some ".tools/jdk-17/bin:/usr/bin".
Proof.
  intros h env r.
  pose proof (android_env_child (path := string) id (λ p name, p +:+ "/" +:+ name) ":"
                h 0%nat (Some ".tools/jdk-17") None) as Hspec.
  cbv zeta in Hspec. destruct Hspec as ([Hjava Hpath] & _).
  - intros x [d Hd]. subst h. simpl in Hd.
    apply lookup_singleton_Some in Hd as [<- _]. simpl. lia.
  - subst h. simpl. rewrite lookup_singleton_eq. by eexists.
  - split; [exact Hjava|]. etrans; [exact Hpath|]. by vm_compute.
Defined.

(** ** The manifest and the tree it walks *)

Section TreeFacts.
Import Manifest Tree.

(** Induction over trees, with the hypothesis for every entry of a
    directory. *)
Lemma node_entries_ind (P : node → Prop)
    (Hfile : ∀ sz, P (File sz))
    (Hdir : ∀ entries, Forall (λ e, P e.2) entries → P (Dir entries)) :
  ∀ n, P n.
Proof.
  fix IH 1. intros [sz|entries]; [apply Hfile|]. apply Hdir.
  induction entries as [|e es IHes]; constructor; [apply IH|exact IHes].
Qed.

Lemma walk_Dir (root : list string) (entries : list (string * node)) :
  walk root (Dir entries) =
  (root, dirnames entries, filenames entries)
    :: (entries ≫= λ '(name, sub), walk (root ++ [name]) sub).
Proof.
  simpl. f_equal. induction entries as [|[name sub] entries IH]; [done|].
  csimpl. by rewrite IH.
Qed.

Lemma tree_files_Dir (root : list string) (entries : list (string * node)) :
  tree_files root (Dir entries) =
  entries ≫= λ '(name, sub),
    match sub with
    | File sz => [(root ++ [name], sz)]
    | Dir _ => tree_files (root ++ [name]) sub
    end.
Proof.
  simpl. induction entries as [|[name sub] entries IH]; [done|].
  csimpl. by rewrite IH.
Qed.

Lemma walked_files_cons (root : list string) (dirs : list string)
    (files : list (string * Z))
    (triples : list (list string * list string * list (string * Z))) :
  walked_files ((root, dirs, files) :: triples)
  = ((λ f, (root ++ [f.1], f.2)) <$> files) ++ walked_files triples.
Proof. done. Qed.

Lemma walked_files_app (t1 t2 : list (list string * list string * list (string * Z))) :
  walked_files (t1 ++ t2) = walked_files t1 ++ walked_files t2.
Proof. unfold walked_files. by rewrite bind_app. Qed.

(** The walk comes across the files of the tree, each once. *)
Lemma walk_tree_files (n : node) (root : list string) :
  walked_files (walk root n) ≡ₚ tree_files root n.
Proof.
  revert root. induction n as [sz|entries IH] using node_entries_ind; intros root.
  { done. }
  rewrite walk_Dir, tree_files_Dir, walked_files_cons.
  induction IH as [|[name sub] entries Hsub _ IHentries]; [done|].
  rewrite !bind_cons, walked_files_app. destruct sub as [sz|sub].
  - change (filenames ((name, File sz) :: entries))
      with ((name, sz) :: filenames entries).
    cbv beta iota. csimpl. by rewrite IHentries.
  - change (filenames ((name, Dir sub) :: entries)) with (filenames entries).
    cbv beta iota. rewrite <-IHentries, <-(Hsub (root ++ [name])).
    rewrite !app_assoc. f_equiv. apply Permutation_app_comm.
Qed.

(** The manifest is built from the walked files, one after the other. *)
Lemma generate_manifest_walked (dist_root : node) :
  generate_manifest dist_root =
  foldl (λ c '(parts, sz),
           components_append c (category_of parts)
             {| file := join_posix parts; size_bytes := sz |})
        [] (walked_files (walk [] dist_root)).
Proof.
  unfold generate_manifest.
  generalize (walk [] dist_root) (@nil (string * list file_entry)).
  intros triples. induction triples as [|[[root dirs] files] triples IH]; intros c.
  { done. }
  rewrite walked_files_cons, foldl_app. simpl. rewrite IH. f_equal.
  clear. revert c. induction files as [|f files IH]; intros c; [done|].
  csimpl. by rewrite IH.
Qed.

Lemma total_entries_append (c : components) (category : string) (e : file_entry) :
  total_entries (components_append c category e) = S (total_entries c).
Proof.
  unfold total_entries. induction c as [|[k es] c IH]; simpl; [done|].
  destruct (String.eqb k category); csimpl.
  - rewrite length_app. simpl. lia.
  - unfold compose in *. simpl. rewrite IH. lia.
Qed.

Lemma categories_append (c : components) (category : string) (e : file_entry) :
  NoDup c.*1 → NoDup (components_append c category e).*1.
Proof.
  intros Hnd.
  assert ((components_append c category e).*1 = c.*1 ∨
          ((category ∉ c.*1) ∧ (components_append c category e).*1 = c.*1 ++ [category]))
    as [->| [Hnew ->]]; [|done|].
  - clear Hnd. induction c as [|[k es] c IH]; csimpl.
    { right. split; [apply not_elem_of_nil|done]. }
    destruct (String.eqb_spec k category) as [->|Hk]; csimpl; [by left|].
    destruct IH as [->|[Hnew ->]]; [by left|]. right. split; [|done].
    rewrite not_elem_of_cons. done.
  - apply NoDup_app. split_and!; [done| |apply NoDup_singleton].
    intros x Hx ->%list_elem_of_singleton. done.
Qed.

(** X16: every file of the tree under [dist-release/] is listed in the
    manifest with its size, under the first component of its relative path:
    its top-level directory, or its own name when it lies directly under the
    root. *)
Theorem generate_manifest_complete (dist_root : node) (parts : list string) (sz : Z) :
  (parts, sz) ∈ tree_files [] dist_root →
  ∃ top rest,
    parts = top :: rest ∧
    recorded (generate_manifest dist_root) top
      {| file := join_posix parts; size_bytes := sz |}.
Proof.
  intros Hfile. rewrite <-walk_tree_files in Hfile.
  unfold walked_files in Hfile.
  apply list_elem_of_bind in Hfile as ([[root dirs] files] & Hf & Htriple).
  apply list_elem_of_fmap in Hf as (f & [= -> ->] & Hf).
  pose proof (generate_manifest_records dist_root root dirs files f Htriple Hf) as Hrec.
  destruct root as [|top root]; simpl in *; eauto.
Qed.

(** [generate_manifest_complete] at a file two levels below the root. *)
Lemma generate_manifest_complete_witness :
  ∃ top rest,
    ["apps"; "sentinel"; "index.html"] = top :: rest ∧
    recorded
      (generate_manifest
         (Dir [("MANIFEST.json", File 512);
               ("apps", Dir [("sentinel", Dir [("index.html", File 2048)])])]))
      top {| file := join_posix ["apps"; "sentinel"; "index.html"]; size_bytes := 2048 |}.
Proof.
  apply generate_manifest_complete. vm_compute. right. by left.
Defined.

(** X17: the manifest lists every file of the tree exactly once: the
    number of its file entries, over all categories, is the number of files
    in the tree, and no category name occurs twice. *)
Theorem generate_manifest_count (dist_root : node) :
  total_entries (generate_manifest dist_root) = length (tree_files [] dist_root) ∧
  NoDup (generate_manifest dist_root).*1.
Proof.
  rewrite generate_manifest_walked, <-(Permutation_length (walk_tree_files dist_root [])).
  generalize (walked_files (walk [] dist_root)). intros files.
  assert (∀ c, NoDup c.*1 →
    let r := foldl (λ c '(parts, sz),
                      components_append c (category_of parts)
                        {| file := join_posix parts; size_bytes := sz |}) c files in
    total_entries r = (total_entries c + length files)%nat ∧ NoDup r.*1) as Hfold.
  { induction files as [|[parts sz] files IH]; intros c Hc; simpl.
    { split; [lia|done]. }
    destruct (IH (components_append c (category_of parts)
                    {| file := join_posix parts; size_bytes := sz |}))
      as [-> Hnd]; [by apply categories_append|].
    rewrite total_entries_append. split; [lia|done]. }
  destruct (Hfold []) as [-> Hnd]; [constructor|]. done.
Qed.

End TreeFacts.

(** ** The exit status of the Gradle script *)

Section GradleExit.
Import Pipeline Gradle Observe.
Context {W : Type}.

Lemma run_steps_failed_mono (steps : list (string * @action W)) (l : loop) :
  (failed_steps l ≤ failed_steps (run_steps steps l))%nat.
Proof.
  revert l. induction steps as [|[name f] steps IH]; intros l; cbn [run_steps]; [done|].
  assert (failed_steps l ≤ failed_steps (run_step (name, f) l))%nat as Hstep.
  { unfold run_step. destruct (f (machine l)) as [[| |e] m]; simpl; lia. }
  destruct (stopped (run_step (name, f) l)); [done|].
  etrans; [exact Hstep|apply IH].
Qed.

Lemma run_steps_clean (steps : list (string * @action W)) (l : loop) :
  failed_steps (run_steps steps l) = failed_steps l ↔ all_succeed steps (machine l).
Proof.
  revert l. induction steps as [|[name f] steps IH]; intros l;
    cbn [run_steps all_succeed]; [done|].
  pose proof (run_steps_failed_mono steps (run_step (name, f) l)) as Hmono.
  pose proof (IH (run_step (name, f) l)) as IHl.
  revert Hmono IHl. unfold run_step.
  destruct (f (machine l)) as [[| |e] m]; cbn [fst snd failed_steps machine stopped].
  - intros _ IHl. rewrite IHl. tauto.
  - intros Hmono _. destruct (negb _); cbn [failed_steps];
      (split; [lia|by intros [? _]]).
  - intros Hmono _. destruct (bool_decide _); cbn [failed_steps];
      (split; [lia|by intros [? _]]).
Qed.

Lemma run_steps_clean_log (steps : list (string * @action W)) (l : loop) :
  stopped l = false →
  all_succeed steps (machine l) →
  log (run_steps steps l) = log l ++ (LogStep <$> steps.*1) ∧
  stopped (run_steps steps l) = false.
Proof.
  revert l. induction steps as [|[name f] steps IH]; intros l Hl;
    cbn [run_steps all_succeed].
  { intros _. by rewrite app_nil_r. }
  intros [Hf Hrest]. unfold run_step. revert Hf Hrest.
  destruct (f (machine l)) as [[| |e] m]; [|done..]. intros _ Hrest.
  cbn [stopped]. destruct (IH {| failed_steps := failed_steps l; machine := m;
                                log := log l ++ [LogStep name]; stopped := false |})
    as [-> ->]; [done..|].
  csimpl. by rewrite <-app_assoc.
Qed.

Context (download_gradle extract_gradle setup_gradle_wrapper verify_wrapper
         build_apk copy_apk_to_dist : @action W).

(** X18: the Gradle script exits with 0 exactly when each of its six
    steps returns true, each on the machine the one before left; otherwise it
    exits with 1.  On exit status 0 the log names the six steps in order and
    nothing else, and the loop was not left early. *)
Theorem setup_and_build_exit_zero (m : W) :
  let '(status, l) :=
    setup_and_build download_gradle extract_gradle setup_gradle_wrapper
      verify_wrapper build_apk copy_apk_to_dist m in
  (status = 0 ∨ status = 1) ∧
  (status = 0 ↔
   all_succeed (steps download_gradle extract_gradle setup_gradle_wrapper
                  verify_wrapper build_apk copy_apk_to_dist) m) ∧
  (status = 0 →
   stopped l = false ∧
   log l = [LogStep "Download Gradle"; LogStep "Extract Gradle";
            LogStep "Generate Wrapper"; LogStep "Verify Wrapper";
            LogStep "Build APK"; LogStep "Copy to Distribution"]).
Proof.
  unfold setup_and_build.
  set (l0 := {| failed_steps := 0; machine := m; log := []; stopped := false |}).
  set (all := steps _ _ _ _ _ _).
  assert (exit_status (run_steps all l0) = 0 ↔ all_succeed all m) as Hzero.
  { pose proof (run_steps_clean all l0) as Hclean. cbn [machine failed_steps l0] in Hclean.
    rewrite <-Hclean. unfold exit_status. by case_bool_decide. }
  split_and!.
  - unfold exit_status. case_bool_decide; auto.
  - done.
  - intros Hall%Hzero.
    destruct (run_steps_clean_log all l0) as [-> ->]; done.
Qed.

End GradleExit.

(** ** What [ensure_jdk] downloads *)

Section DownloadFacts.
Import Toolchain Observe.

Lemma downloads_emit (e : event) (s : st) :
  downloads (trace (emit e s)) =
  downloads (trace s) ++ match e with Download url => [url] | _ => [] end.
Proof.
  unfold downloads, emit. cbn [trace]. rewrite omap_app.
  destruct e; csimpl; by rewrite ?app_nil_r.
Qed.

(** One failed fetch: nothing more is downloaded, and the network is the
    one it was. *)
Lemma failed_fetch_frame (url : string) (partial : bool) (s : st) :
  let s0 := emit (Download url) s in
  let s1 := if partial then set_world (with_jdk_zip (Some None) (w s0)) s0 else s0 in
  let s2 := emit (PathExists jdk_zip_path) s1 in
  let s3 :=
    match jdk_zip (w s2) with
    | Some _ =>
        let s := emit (Unlink jdk_zip_path) s2 in
        if unlink_ok (w s) then set_world (with_jdk_zip None (w s)) s else s
    | None => s2
    end in
  net (w s3) = net (w s) ∧ os_nt (w s3) = os_nt (w s) ∧
  downloads (trace s3) = downloads (trace s) ++ [url].
Proof.
  assert (∀ l, omap (λ e, match e with Download url => Some url | _ => None end)
                 (l ++ [PathExists jdk_zip_path]) = downloads l) as Hexists.
  { intros l. rewrite omap_app. csimpl. by rewrite app_nil_r. }
  assert (∀ l, omap (λ e, match e with Download url => Some url | _ => None end)
                 (l ++ [Unlink jdk_zip_path]) = downloads l) as Hunlink.
  { intros l. rewrite omap_app. csimpl. by rewrite app_nil_r. }
  assert (downloads (trace s ++ [Download url]) = downloads (trace s) ++ [url]) as Hdl.
  { unfold downloads. by rewrite omap_app. }
  cbv zeta. destruct partial; simpl.
  - destruct (unlink_ok (w s)); simpl; (split_and!; [done..|]);
      unfold downloads at 1; by rewrite ?Hunlink, ?Hexists.
  - destruct (jdk_zip (w s)); [destruct (unlink_ok (w s))|]; simpl;
      (split_and!; [done..|]);
      unfold downloads at 1; by rewrite ?Hunlink, ?Hexists.
Qed.

(** X19: the candidate URLs are requested in order, and the first one
    that can be fetched ends the loop: the URLs after it are never
    requested, the archive it delivered is the cached one, and no error is
    left. *)
Theorem download_loop_first_fetch (pre post : list string) (url : string)
    (z : zip_payload) (last_err : option string) (s : st) :
  Forall (λ u, ∃ e partial, net (w s) u = FetchFailed e partial) pre →
  net (w s) url = Fetched z →
  let r := download_loop (pre ++ url :: post) last_err s in
  r.1 = None ∧
  jdk_zip (w r.2) = Some z ∧
  downloads (trace r.2) = downloads (trace s) ++ pre ++ [url].
Proof.
  intros Hpre Hurl. revert last_err s Hpre Hurl.
  induction pre as [|u pre IH]; intros last_err s Hpre Hurl.
  - cbn [app download_loop]. cbv zeta.
    change (w (emit (Download url) s)) with (w s). rewrite Hurl.
    cbn [fst snd w set_world with_jdk_zip jdk_zip trace]. split_and!; [done..|].
    apply (downloads_emit (Download url)).
  - apply Forall_cons in Hpre as [(e & partial & Hu) Hpre].
    cbn [app download_loop]. cbv zeta.
    change (w (emit (Download u) s)) with (w s). rewrite Hu.
    pose proof (failed_fetch_frame u partial s) as Hframe. cbv zeta in Hframe.
    change (w (emit (Download u) s)) with (w s) in Hframe.
    match goal with |- context [download_loop _ (Some e) ?s'] => set (s1 := s') in * end.
    destruct Hframe as (Hnet & _ & Hdl).
    destruct (IH (Some e) s1) as (Herr & Hzip & Htrace).
    { by rewrite Hnet. }
    { by rewrite Hnet. }
    split_and!; [done..|]. rewrite Htrace, Hdl. by rewrite <-!app_assoc.
Qed.

(** [download_loop_first_fetch] on a machine where only the second fixed URL
    answers. *)
Lemma download_loop_first_fetch_witness :
  let r := download_loop (url_candidates None) None
             {| w := flaky_world; java_home := None; trace := [] |} in
  r.1 = None ∧
  jdk_zip (w r.2) = Some (Some [("jdk-17.0.10+7", true)]) ∧
  downloads (trace r.2) =
  ["https://api.adoptium.net/v3/binary/latest/17/ga/windows/x64/jdk/hotspot/normal/eclipse";
   "https://aka.ms/download-jdk/microsoft-jdk-17.0.10-windows-x64.zip"].
Proof.
  apply (download_loop_first_fetch
           ["https://api.adoptium.net/v3/binary/latest/17/ga/windows/x64/jdk/hotspot/normal/eclipse"]
           ["https://aka.ms/download-jdk/microsoft-jdk-17.0.9-windows-x64.zip"]
           "https://aka.ms/download-jdk/microsoft-jdk-17.0.10-windows-x64.zip"
           (Some [("jdk-17.0.10+7", true)]) None
           {| w := flaky_world; java_home := None; trace := [] |}).
  - constructor; [|constructor]. by exists "HTTP Error 403: Forbidden", true.
  - reflexivity.
Defined.






End DownloadFacts.
